(** * The OmniTAK JNI bridge: callback registry and cross-runtime dispatch

    A shallow embedding of [modules/omnitak_mobile/android/native/omnitak_jni.cpp].

    Every function of the bridge is written as a small program over the
    primitive operations the C++ code performs (mutex, [std::map], JNI calls,
    logging, calls into the native core).  The programs are run against an
    explicit world: the three globals of the translation unit and the part of
    the Java VM the bridge can observe (attached threads, pending exceptions,
    the table of global references). *)

From stdpp Require Import gmap strings list sorting relations.
From Stdlib Require Import ZArith Lia.

Local Open Scope Z_scope.

(** ** Machine integers and JNI constants *)

(** [(uint64_t) x] for a 64-bit [x]. *)
Definition to_uint64 (z : Z) : Z := z mod 2 ^ 64.

(** [(jlong) x] for a 64-bit [x]: two's complement reinterpretation. *)
Definition to_jlong (z : Z) : Z := (z + 2 ^ 63) mod 2 ^ 64 - 2 ^ 63.

(** [(uint16_t) x]. *)
Definition to_uint16 (z : Z) : Z := z mod 2 ^ 16.

(** Status codes and version constant of [jni.h]. *)
Definition JNI_OK : Z := 0.
Definition JNI_EDETACHED : Z := -2.
Definition JNI_EVERSION : Z := -3.
Definition JNI_VERSION_1_6 : Z := 65542.

(** ** Handles *)

(** An OS thread. *)
Definition thread := nat.
(** Identity of an object of the managed heap. *)
Definition object := nat.
(** A JNI global reference (the [jobject] values [NewGlobalRef] returns). *)
Definition gref := nat.
Definition jclass := nat.
Definition jmethodID := nat.
(** A [JavaVM*]; [None] is [nullptr]. *)
Definition JavaVM := nat.
(** A [java.lang.String], given by its modified UTF-8 encoding. *)
Inductive java_string := JavaString (utf : string).
Definition utf_chars (s : java_string) : string := let (utf) := s in utf.
(** A [jstring] or a [const char*]: [None] is the null pointer. *)
Definition jstring := option java_string.
Definition cstring := option string.

(** [struct CallbackContext]. *)
Record CallbackContext := mkContext {
  jvm : option JavaVM;
  bridge_instance : gref;
}.

(** Modelled from the spec: [ConnectionStatus] is declared in
    [omnitak_mobile.h], which is not among the sources; its fields are the
    four that [nativeGetStatus] reads and that the spec lists for
    [get_status]. *)
Record ConnectionStatus := mkStatus {
  is_connected : Z;
  messages_sent : Z;
  messages_received : Z;
  last_error_code : Z;
}.

(** Android log priorities used by the [LOGI], [LOGE] and [LOGD] macros. *)
Inductive priority := ANDROID_LOG_INFO | ANDROID_LOG_ERROR | ANDROID_LOG_DEBUG.

(** The functions of the native core that return a status or an id.  The
    core is not part of the bridge: what a call returns is up to the
    [host] below. *)
Inductive core_call :=
| omnitak_init
| omnitak_connect (host : string) (port protocol use_tls : Z) (cert key ca : cstring)
| omnitak_disconnect (id : Z)
| omnitak_send_cot (id : Z) (xml : string)
| omnitak_register_callback (id : Z)
| omnitak_unregister_callback (id : Z).

(** Local references handed to [DeleteLocalRef]. *)
Inductive local_ref :=
| LocalClass (c : jclass)
| LocalString (s : jstring).

(** ** Primitive operations *)

Inductive action :=
(* std::mutex g_callbacks_mutex *)
| MutexLock
| MutexUnlock
(* std::map<uint64_t, CallbackContext> g_callbacks *)
| MapFind (k : Z)
| MapAssign (k : Z) (c : CallbackContext)
| MapErase (k : Z)
| MapIterate
| MapClear
(* JavaVM* g_jvm *)
| GetGJvm
| SetGJvm (vm : option JavaVM)
(* JavaVM interface *)
| GetEnv (vm : option JavaVM) (version : Z)
| AttachCurrentThread (vm : option JavaVM)
| DetachCurrentThread (vm : option JavaVM)
(* JNIEnv interface *)
| GetObjectClass (obj : gref)
| GetMethodID (cls : jclass) (name sig : string)
| FindClass (name : string)
| NewObject (cls : jclass) (ctor : jmethodID) (args : list Z)
| NewStringUTF (s : string)
| GetStringUTFChars (s : java_string)
| ReleaseStringUTFChars (s : java_string) (chars : string)
| CallVoidMethod (obj : gref) (m : jmethodID) (arg1 : Z) (arg2 : jstring)
| ExceptionCheck
| ExceptionDescribe
| ExceptionClear
| DeleteLocalRef (r : local_ref)
| NewGlobalRef (o : object)
| DeleteGlobalRef (r : gref)
(* __android_log_print *)
| Log (p : priority) (fmt : string)
(* omnitak_mobile.h *)
| Core (c : core_call)
| CoreShutdown
| CoreGetStatus (id : Z)
| CoreVersion.

(** What an operation hands back to the program. *)
Definition result (a : action) : Type :=
  match a with
  | MapFind _ => option CallbackContext
  | MapIterate => list (Z * CallbackContext)
  | GetGJvm => option JavaVM
  | GetEnv _ _ | AttachCurrentThread _ | DetachCurrentThread _ => Z
  | GetObjectClass _ => jclass
  | GetMethodID _ _ _ => option jmethodID
  | FindClass _ => option jclass
  | NewObject _ _ _ => option object
  | NewStringUTF _ => jstring
  | GetStringUTFChars _ => string
  | ExceptionCheck => bool
  | NewGlobalRef _ => gref
  | Core _ => Z
  | CoreGetStatus _ => Z * ConnectionStatus
  | CoreVersion => cstring
  | _ => unit
  end.

(** ** Programs *)

Inductive prog (A : Type) : Type :=
| Ret (x : A)
| Do (a : action) (k : result a -> prog A).
Arguments Ret {A} x.
Arguments Do {A} a k.

Fixpoint bind {A B} (p : prog A) (f : A -> prog B) : prog B :=
  match p with
  | Ret x => f x
  | Do a k => Do a (fun r => bind (k r) f)
  end.

Definition act (a : action) : prog (result a) := Do a Ret.

Declare Scope prog_scope.
Delimit Scope prog_scope with prog.
Bind Scope prog_scope with prog.
Notation "x <- a ; k" := (Do a (fun x => k%prog))
  (at level 20, a at level 100, k at level 200, only parsing) : prog_scope.
Notation "a ;; k" := (Do a (fun _ => k%prog))
  (at level 100, k at level 200, only parsing, right associativity) : prog_scope.
Notation "x <~ p ; k" := (bind p (fun x => k%prog))
  (at level 20, p at level 100, k at level 200, only parsing) : prog_scope.

(** ** The world the bridge runs in *)

(** What was observed during a run. *)
Inductive event :=
| EAttach (t : thread) (status : Z)
| EDetach (t : thread)
| EInvoke (t : thread) (target : object) (m : jmethodID) (id : Z) (payload : jstring)
| EExceptionClear (t : thread)
| ENewGlobalRef (r : gref) (o : object)
| EDeleteGlobalRef (r : gref)
| EAssign (k : Z) (c : CallbackContext)
| EErase (k : Z)
| EClear
| ELog (p : priority) (fmt : string)
| ECore (c : core_call)
| ECoreShutdown.

Record world := mkWorld {
  g_callbacks : gmap Z CallbackContext;
  g_callbacks_mutex : option thread;      (* the thread holding the mutex *)
  g_jvm : option JavaVM;
  attached : gset thread;                 (* threads attached to the VM *)
  pending : gset thread;                  (* threads with a pending exception *)
  globals : gmap gref object;             (* live global references *)
  next_global : gref;                     (* next handle NewGlobalRef gives out *)
}.

(** The behaviour of the host runtime and of the native core that the
    bridge cannot control; every run is given one. *)
Record host := mkHost {
  h_version_ok : bool;                    (* GetEnv supports the asked version *)
  h_attach : Z;                           (* status of AttachCurrentThread *)
  h_class_of : object -> jclass;
  h_method : jclass -> string -> string -> option jmethodID;
  h_throws : object -> jmethodID -> Z -> jstring -> bool;
  h_find_class : string -> option jclass;
  h_new_object : jclass -> jmethodID -> list Z -> option object;
  h_core : core_call -> Z;
  h_status : Z -> Z * ConnectionStatus;
  h_version : cstring;
}.

Definition set_callbacks (m : gmap Z CallbackContext) (w : world) : world :=
  mkWorld m (g_callbacks_mutex w) (g_jvm w) (attached w) (pending w)
          (globals w) (next_global w).
Definition set_mutex (o : option thread) (w : world) : world :=
  mkWorld (g_callbacks w) o (g_jvm w) (attached w) (pending w)
          (globals w) (next_global w).
Definition set_g_jvm (vm : option JavaVM) (w : world) : world :=
  mkWorld (g_callbacks w) (g_callbacks_mutex w) vm (attached w) (pending w)
          (globals w) (next_global w).
Definition set_attached (s : gset thread) (w : world) : world :=
  mkWorld (g_callbacks w) (g_callbacks_mutex w) (g_jvm w) s (pending w)
          (globals w) (next_global w).
Definition set_pending (s : gset thread) (w : world) : world :=
  mkWorld (g_callbacks w) (g_callbacks_mutex w) (g_jvm w) (attached w) s
          (globals w) (next_global w).
Definition set_globals (g : gmap gref object) (n : gref) (w : world) : world :=
  mkWorld (g_callbacks w) (g_callbacks_mutex w) (g_jvm w) (attached w) (pending w)
          g n.

(** Entries in ascending key order, the order a [std::map] is iterated in. *)
Definition key_le (x y : Z * CallbackContext) : Prop := x.1 <= y.1.
Global Instance key_le_dec x y : Decision (key_le x y) := Z_le_dec _ _.
Definition entries (m : gmap Z CallbackContext) : list (Z * CallbackContext) :=
  merge_sort key_le (map_to_list m).

(** One primitive operation performed by thread [t].  [None]: the operation
    cannot proceed (the mutex is taken) or has no defined behaviour (a null
    [JavaVM*] is dereferenced, a deleted global reference is used, the mutex
    is unlocked by a thread that does not hold it).

    The JNI functions do what the JNI specification says of them: [GetEnv]
    answers [JNI_EDETACHED] exactly for a thread that is not attached;
    [AttachCurrentThread] is a no-op on an attached thread and otherwise
    attaches the thread when it returns 0; [DetachCurrentThread] detaches an
    attached thread, and with it goes its pending exception;
    [GetMethodID] and [FindClass] leave an exception pending when they
    fail; [CallVoidMethod] runs the method of the object the reference
    refers to, and leaves an exception pending when the method throws;
    [NewGlobalRef] hands out a reference never handed out before. *)
Definition exec (h : host) (t : thread) (a : action) (w : world)
  : option (result a * world * list event) :=
  match a return option (result a * world * list event) with
  | MutexLock =>
      match g_callbacks_mutex w with
      | None => Some (tt, set_mutex (Some t) w, [])
      | Some _ => None
      end
  | MutexUnlock =>
      if decide (g_callbacks_mutex w = Some t)
      then Some (tt, set_mutex None w, []) else None
  | MapFind k => Some (g_callbacks w !! k, w, [])
  | MapAssign k c => Some (tt, set_callbacks (<[k := c]> (g_callbacks w)) w, [EAssign k c])
  | MapErase k => Some (tt, set_callbacks (delete k (g_callbacks w)) w, [EErase k])
  | MapIterate => Some (entries (g_callbacks w), w, [])
  | MapClear => Some (tt, set_callbacks ∅ w, [EClear])
  | GetGJvm => Some (g_jvm w, w, [])
  | SetGJvm vm => Some (tt, set_g_jvm vm w, [])
  | GetEnv vm _ =>
      match vm with
      | None => None
      | Some _ =>
          if decide (t ∈ attached w)
          then Some (if h_version_ok h then JNI_OK else JNI_EVERSION, w, [])
          else Some (JNI_EDETACHED, w, [])
      end
  | AttachCurrentThread vm =>
      match vm with
      | None => None
      | Some _ =>
          if decide (t ∈ attached w) then Some (JNI_OK, w, [])
          else if decide (h_attach h = 0)
               then Some (0, set_attached ({[t]} ∪ attached w) w, [EAttach t 0])
               else Some (h_attach h, w, [EAttach t (h_attach h)])
      end
  | DetachCurrentThread vm =>
      match vm with
      | None => None
      | Some _ =>
          if decide (t ∈ attached w)
          then Some (JNI_OK,
                     set_pending (pending w ∖ {[t]})
                       (set_attached (attached w ∖ {[t]}) w), [EDetach t])
          else Some (JNI_EDETACHED, w, [])
      end
  | GetObjectClass r =>
      match globals w !! r with
      | Some o => Some (h_class_of h o, w, [])
      | None => None
      end
  | GetMethodID cls name sig =>
      match h_method h cls name sig with
      | Some m => Some (Some m, w, [])
      | None => Some (None, set_pending ({[t]} ∪ pending w) w, [])
      end
  | FindClass name =>
      match h_find_class h name with
      | Some c => Some (Some c, w, [])
      | None => Some (None, set_pending ({[t]} ∪ pending w) w, [])
      end
  | NewObject cls ctor args => Some (h_new_object h cls ctor args, w, [])
  | NewStringUTF s => Some (Some (JavaString s), w, [])
  | GetStringUTFChars s => Some (utf_chars s, w, [])
  | ReleaseStringUTFChars _ _ => Some (tt, w, [])
  | CallVoidMethod r m arg1 arg2 =>
      match globals w !! r with
      | Some o =>
          Some (tt,
                if h_throws h o m arg1 arg2
                then set_pending ({[t]} ∪ pending w) w else w,
                [EInvoke t o m arg1 arg2])
      | None => None
      end
  | ExceptionCheck => Some (bool_decide (t ∈ pending w), w, [])
  | ExceptionDescribe => Some (tt, w, [])
  | ExceptionClear => Some (tt, set_pending (pending w ∖ {[t]}) w, [EExceptionClear t])
  | DeleteLocalRef _ => Some (tt, w, [])
  | NewGlobalRef o =>
      Some (next_global w,
            set_globals (<[next_global w := o]> (globals w)) (S (next_global w)) w,
            [ENewGlobalRef (next_global w) o])
  | DeleteGlobalRef r =>
      Some (tt, set_globals (delete r (globals w)) (next_global w) w,
            [EDeleteGlobalRef r])
  | Log p fmt => Some (tt, w, [ELog p fmt])
  | Core c => Some (h_core h c, w, [ECore c])
  | CoreShutdown => Some (tt, w, [ECoreShutdown])
  | CoreGetStatus id => Some (h_status h id, w, [])
  | CoreVersion => Some (h_version h, w, [])
  end.

(** A program run to completion by one thread, without interference;
    [acc] holds the events observed so far. *)
Fixpoint run_acc {A} (h : host) (t : thread) (p : prog A) (w : world)
    (acc : list event) : option (A * world * list event) :=
  match p with
  | Ret x => Some (x, w, acc)
  | Do a k =>
      match exec h t a w with
      | None => None
      | Some (r, w1, e1) => run_acc h t (k r) w1 (acc ++ e1)
      end
  end.

Definition run {A} (h : host) (t : thread) (p : prog A) (w : world)
  : option (A * world * list event) :=
  run_acc h t p w [].

(** ** The bridge *)

Definition LOGI (fmt : string) : action := Log ANDROID_LOG_INFO fmt.
Definition LOGE (fmt : string) : action := Log ANDROID_LOG_ERROR fmt.
Definition LOGD (fmt : string) : action := Log ANDROID_LOG_DEBUG fmt.

(** [jstring_to_string]: JNI string to C++ string. *)
Definition jstring_to_string (jstr : jstring) : prog string :=
  match jstr with
  | None => Ret ""%string
  | Some s =>
      chars <- GetStringUTFChars s;
      ReleaseStringUTFChars s chars;;
      Ret chars
  end.

(** [string_to_jstring]: C string to JNI string. *)
Definition string_to_jstring (str : cstring) : prog jstring :=
  match str with
  | None => Ret None
  | Some s => act (NewStringUTF s)
  end.

(** Lines 88-129 of [cot_callback_bridge]: what it does once [env] is
    valid, with [needDetach] as the code has set it. *)
Definition cot_callback_bridge_invoke (context : CallbackContext) (needDetach : bool)
    (connection_id : Z) (cot_xml : cstring) : prog unit :=
  bridgeClass <- GetObjectClass (bridge_instance context);
  onCotReceivedMethod <- GetMethodID bridgeClass "onCotReceived" "(JLjava/lang/String;)V";
  match onCotReceivedMethod with
  | None =>
      LOGE "Failed to find onCotReceived method";;
      DeleteLocalRef (LocalClass bridgeClass);;
      if needDetach then DetachCurrentThread (jvm context);; Ret tt else Ret tt
  | Some m =>
      jCotXml <~ string_to_jstring cot_xml;
      CallVoidMethod (bridge_instance context) m (to_jlong connection_id) jCotXml;;
      thrown <- ExceptionCheck;
      _ <~ (if thrown : bool
            then LOGE "Exception occurred in onCotReceived";;
                 ExceptionDescribe;;
                 ExceptionClear;;
                 Ret tt
            else Ret tt);
      DeleteLocalRef (LocalString jCotXml);;
      DeleteLocalRef (LocalClass bridgeClass);;
      if needDetach then DetachCurrentThread (jvm context);; Ret tt else Ret tt
  end.

(** [cot_callback_bridge]: the C callback the native core invokes, on any of
    its threads, with a connection id and a CoT message. *)
Definition cot_callback_bridge (connection_id : Z) (cot_xml : cstring) : prog unit :=
  LOGD "CoT callback triggered for connection %llu";;
  MutexLock;;
  it <- MapFind connection_id;
  match it with
  | None =>
      LOGE "No callback context found for connection %llu";;
      MutexUnlock;;
      Ret tt
  | Some context =>
      MutexUnlock;;
      getEnvStat <- GetEnv (jvm context) JNI_VERSION_1_6;
      if decide (getEnvStat = JNI_EDETACHED) then
        LOGD "Attaching to JVM for callback";;
        status <- AttachCurrentThread (jvm context);
        if decide (status ≠ 0) then
          LOGE "Failed to attach to JVM";;
          Ret tt
        else cot_callback_bridge_invoke context true connection_id cot_xml
      else if decide (getEnvStat ≠ JNI_OK) then
        LOGE "Failed to get JNI environment";;
        Ret tt
      else cot_callback_bridge_invoke context false connection_id cot_xml
  end.

(** [JNI_OnLoad]. *)
Definition JNI_OnLoad (vm : option JavaVM) : prog Z :=
  LOGI "JNI_OnLoad called";;
  SetGJvm vm;;
  Ret JNI_VERSION_1_6.

(** [nativeInit]. *)
Definition Java_com_engindearing_omnitak_native_OmniTAKNativeBridge_nativeInit
    : prog Z :=
  LOGI "nativeInit called";;
  result <- Core omnitak_init;
  LOGI "omnitak_init returned %d";;
  Ret result.

(** The loop of [nativeShutdown] over the entries of the map. *)
Fixpoint delete_global_refs (l : list (Z * CallbackContext)) : prog unit :=
  match l with
  | [] => Ret tt
  | entry :: rest =>
      DeleteGlobalRef (bridge_instance entry.2);;
      delete_global_refs rest
  end.

(** [nativeShutdown]. *)
Definition Java_com_engindearing_omnitak_native_OmniTAKNativeBridge_nativeShutdown
    : prog unit :=
  LOGI "nativeShutdown called";;
  MutexLock;;
  pairs <- MapIterate;
  _ <~ delete_global_refs pairs;
  MapClear;;
  MutexUnlock;;
  CoreShutdown;;
  LOGI "Shutdown complete";;
  Ret tt.

(** The conversion of an optional PEM argument of [nativeConnect]. *)
Definition pem_to_cstring (pem : jstring) : prog cstring :=
  match pem with
  | Some _ => s <~ jstring_to_string pem; Ret (Some s)
  | None => Ret None
  end.

(** [nativeConnect]. *)
Definition Java_com_engindearing_omnitak_native_OmniTAKNativeBridge_nativeConnect
    (host : jstring) (port protocol useTls : Z) (certPem keyPem caPem : jstring)
  : prog Z :=
  LOGI "nativeConnect called";;
  hostStr <~ jstring_to_string host;
  certPemStr <~ pem_to_cstring certPem;
  keyPemStr <~ pem_to_cstring keyPem;
  caPemStr <~ pem_to_cstring caPem;
  LOGI "Connecting to %s:%d (protocol=%d, tls=%d)";;
  connection_id <- Core (omnitak_connect hostStr (to_uint16 port) protocol
                           (if decide (useTls ≠ 0) then 1 else 0)
                           certPemStr keyPemStr caPemStr);
  (if decide (connection_id > 0)
   then LOGI "Connected successfully: %llu"
   else LOGE "Connection failed");;
  Ret (to_jlong connection_id).

(** [nativeDisconnect]. *)
Definition Java_com_engindearing_omnitak_native_OmniTAKNativeBridge_nativeDisconnect
    (connectionId : Z) : prog Z :=
  LOGI "nativeDisconnect called for connection %lld";;
  result <- Core (omnitak_disconnect (to_uint64 connectionId));
  MutexLock;;
  it <- MapFind (to_uint64 connectionId);
  _ <~ match it with
       | Some context =>
           DeleteGlobalRef (bridge_instance context);;
           MapErase (to_uint64 connectionId);;
           LOGI "Callback cleaned up for connection %lld";;
           Ret tt
       | None => Ret tt
       end;
  MutexUnlock;;
  Ret result.

(** [nativeSendCot]. *)
Definition Java_com_engindearing_omnitak_native_OmniTAKNativeBridge_nativeSendCot
    (connectionId : Z) (cotXml : jstring) : prog Z :=
  cotXmlStr <~ jstring_to_string cotXml;
  LOGD "Sending CoT on connection %lld";;
  result <- Core (omnitak_send_cot (to_uint64 connectionId) cotXmlStr);
  _ <~ (if decide (result ≠ 0)
        then LOGE "Failed to send CoT: %d";; Ret tt
        else Ret tt);
  Ret result.

(** [nativeRegisterCallback]; [thiz] is the bridge object the method was
    called on. *)
Definition Java_com_engindearing_omnitak_native_OmniTAKNativeBridge_nativeRegisterCallback
    (thiz : object) (connectionId : Z) : prog Z :=
  LOGI "nativeRegisterCallback called for connection %lld";;
  MutexLock;;
  globalRef <- NewGlobalRef thiz;
  vm <- GetGJvm;
  MapAssign (to_uint64 connectionId) (mkContext vm globalRef);;
  MutexUnlock;;
  result <- Core (omnitak_register_callback (to_uint64 connectionId));
  (if decide (result = 0)
   then LOGI "Callback registered successfully"
   else LOGE "Failed to register callback: %d");;
  Ret result.

(** [nativeUnregisterCallback]. *)
Definition Java_com_engindearing_omnitak_native_OmniTAKNativeBridge_nativeUnregisterCallback
    (connectionId : Z) : prog Z :=
  LOGI "nativeUnregisterCallback called for connection %lld";;
  result <- Core (omnitak_unregister_callback (to_uint64 connectionId));
  MutexLock;;
  it <- MapFind (to_uint64 connectionId);
  _ <~ match it with
       | Some context =>
           DeleteGlobalRef (bridge_instance context);;
           MapErase (to_uint64 connectionId);;
           Ret tt
       | None => Ret tt
       end;
  MutexUnlock;;
  Ret result.

(** [nativeGetStatus]; the result is the new status object, or null. *)
Definition Java_com_engindearing_omnitak_native_OmniTAKNativeBridge_nativeGetStatus
    (connectionId : Z) : prog (option object) :=
  LOGD "nativeGetStatus called for connection %lld";;
  out <- CoreGetStatus (to_uint64 connectionId);
  let '(result, status) := out : Z * ConnectionStatus in
  if decide (result ≠ 0) then
    LOGE "Failed to get status: %d";;
    Ret None
  else
    statusClass <- FindClass
      "com/engindearing/omnitak/native/OmniTAKNativeBridge$ConnectionStatusNative";
    match statusClass with
    | None =>
        LOGE "Failed to find ConnectionStatusNative class";;
        Ret None
    | Some cls =>
        constructor <- GetMethodID cls "<init>" "(IJJI)V";
        match constructor with
        | None =>
            LOGE "Failed to find ConnectionStatusNative constructor";;
            DeleteLocalRef (LocalClass cls);;
            Ret None
        | Some ctor =>
            statusObject <- NewObject cls ctor
              [is_connected status; to_jlong (messages_sent status);
               to_jlong (messages_received status); last_error_code status];
            DeleteLocalRef (LocalClass cls);;
            Ret statusObject
        end
    end.

(** [nativeVersion]. *)
Definition Java_com_engindearing_omnitak_native_OmniTAKNativeBridge_nativeVersion
    : prog jstring :=
  version <- CoreVersion;
  LOGI "Library version: %s";;
  string_to_jstring version.

(** The names the Kotlin side knows the entry points by. *)
Abbreviation nativeInit :=
  Java_com_engindearing_omnitak_native_OmniTAKNativeBridge_nativeInit.
Abbreviation nativeShutdown :=
  Java_com_engindearing_omnitak_native_OmniTAKNativeBridge_nativeShutdown.
Abbreviation nativeConnect :=
  Java_com_engindearing_omnitak_native_OmniTAKNativeBridge_nativeConnect.
Abbreviation nativeDisconnect :=
  Java_com_engindearing_omnitak_native_OmniTAKNativeBridge_nativeDisconnect.
Abbreviation nativeSendCot :=
  Java_com_engindearing_omnitak_native_OmniTAKNativeBridge_nativeSendCot.
Abbreviation nativeRegisterCallback :=
  Java_com_engindearing_omnitak_native_OmniTAKNativeBridge_nativeRegisterCallback.
Abbreviation nativeUnregisterCallback :=
  Java_com_engindearing_omnitak_native_OmniTAKNativeBridge_nativeUnregisterCallback.
Abbreviation nativeGetStatus :=
  Java_com_engindearing_omnitak_native_OmniTAKNativeBridge_nativeGetStatus.
Abbreviation nativeVersion :=
  Java_com_engindearing_omnitak_native_OmniTAKNativeBridge_nativeVersion.

(** ** Calls across the bridge *)

(** The entry points the Kotlin side and the VM call, and the callback the
    native core calls. *)
Inductive call :=
| CallOnLoad (vm : JavaVM)
| CallInit
| CallShutdown
| CallConnect (host : jstring) (port protocol useTls : Z) (certPem keyPem caPem : jstring)
| CallDisconnect (connectionId : Z)
| CallSendCot (connectionId : Z) (cotXml : jstring)
| CallRegisterCallback (thiz : object) (connectionId : Z)
| CallUnregisterCallback (connectionId : Z)
| CallGetStatus (connectionId : Z)
| CallVersion
| CallCotCallback (connection_id : Z) (cot_xml : cstring).

Definition ignore {A} (p : prog A) : prog unit := _ <~ p; Ret tt.

Definition body (c : call) : prog unit :=
  match c with
  | CallOnLoad vm => ignore (JNI_OnLoad (Some vm))
  | CallInit => ignore nativeInit
  | CallShutdown => nativeShutdown
  | CallConnect host port protocol useTls certPem keyPem caPem =>
      ignore (nativeConnect host port protocol useTls certPem keyPem caPem)
  | CallDisconnect connectionId => ignore (nativeDisconnect connectionId)
  | CallSendCot connectionId cotXml => ignore (nativeSendCot connectionId cotXml)
  | CallRegisterCallback thiz connectionId =>
      ignore (nativeRegisterCallback thiz connectionId)
  | CallUnregisterCallback connectionId =>
      ignore (nativeUnregisterCallback connectionId)
  | CallGetStatus connectionId => ignore (nativeGetStatus connectionId)
  | CallVersion => ignore nativeVersion
  | CallCotCallback connection_id cot_xml => cot_callback_bridge connection_id cot_xml
  end.

(** Calls made one after the other, each on some thread and under some
    behaviour of the host. *)
Fixpoint run_calls (s : list (host * thread * call)) (w : world) (acc : list event)
  : option (world * list event) :=
  match s with
  | [] => Some (w, acc)
  | (h, t, c) :: s' =>
      match run_acc h t (body c) w acc with
      | None => None
      | Some (_, w1, acc1) => run_calls s' w1 acc1
      end
  end.

(** ** Observations on event lists *)

Definition is_invoke (e : event) : bool :=
  match e with EInvoke _ _ _ _ _ => true | _ => false end.
Definition is_release (r : gref) (e : event) : bool :=
  match e with EDeleteGlobalRef r' => Nat.eqb r r' | _ => false end.
Definition is_attach (t : thread) (e : event) : bool :=
  match e with EAttach t' status => Nat.eqb t t' && Z.eqb status 0 | _ => false end.
Definition is_detach (t : thread) (e : event) : bool :=
  match e with EDetach t' => Nat.eqb t t' | _ => false end.

(** The event is a line in the Android log. *)
Definition is_log (e : event) : bool :=
  match e with ELog _ _ => true | _ => false end.

(** The callback invocations among the events. *)
Definition invocations (l : list event) : list event := List.filter is_invoke l.
(** How often global reference [r] was released. *)
Definition releases (r : gref) (l : list event) : nat :=
  length (List.filter (is_release r) l).
(** How often thread [t] was attached, and detached. *)
Definition attaches (t : thread) (l : list event) : nat :=
  length (List.filter (is_attach t) l).
Definition detaches (t : thread) (l : list event) : nat :=
  length (List.filter (is_detach t) l).

(** ** States of the registry *)

(** Connection [id] is registered with target [T]: the registry has an entry
    for it whose global reference refers to [T]. *)
Definition registered (w : world) (id : Z) (T : object) : Prop :=
  ∃ context, g_callbacks w !! id = Some context ∧
             is_Some (jvm context) ∧
             globals w !! bridge_instance context = Some T.

(** The thread can enter the runtime: it is attached and the VM supports
    the JNI version asked for, or it is not and attaching it succeeds. *)
Definition enters (h : host) (t : thread) (w : world) : bool :=
  if decide (t ∈ attached w) then h_version_ok h else bool_decide (h_attach h = 0).

(** The method [GetMethodID] resolves on the class of [T]. *)
Definition onCotReceived_of (h : host) (T : object) : option jmethodID :=
  h_method h (h_class_of h T) "onCotReceived" "(JLjava/lang/String;)V".

(** The [jstring] made of a C string by [NewStringUTF]; null stays null. *)
Definition to_java (s : cstring) : jstring := JavaString <$> s.

(** The invocations a dispatch to a connection registered with [T] makes. *)
Definition delivery (h : host) (t : thread) (w : world) (T : object)
    (id : Z) (xml : cstring) : list event :=
  if enters h t w
  then match onCotReceived_of h T with
       | Some m => [EInvoke t T m (to_jlong id) (to_java xml)]
       | None => []
       end
  else [].

(** The frame of a dispatch: the globals of the bridge and the table of
    global references. *)
Definition same_registry (w w' : world) : Prop :=
  g_callbacks w' = g_callbacks w ∧
  g_callbacks_mutex w' = g_callbacks_mutex w ∧
  g_jvm w' = g_jvm w ∧
  globals w' = globals w ∧
  next_global w' = next_global w.

(** The states the bridge is in between calls, once the library is loaded. *)
Record wf (w : world) : Prop := mkWf {
  wf_mutex : g_callbacks_mutex w = None;
  wf_loaded : is_Some (g_jvm w);
  wf_entries : map_Forall (λ _ c, is_Some (jvm c) ∧
                                  is_Some (globals w !! bridge_instance c))
                          (g_callbacks w);
  wf_distinct : map_Forall (λ k1 c1,
                  map_Forall (λ k2 c2,
                    bridge_instance c1 = bridge_instance c2 → k1 = k2)
                    (g_callbacks w))
                  (g_callbacks w);
  wf_fresh : map_Forall (λ r _, (r < next_global w)%nat) (globals w);
}.

(** Global reference [r] was handed out before, and no entry of the
    registry holds it. *)
Definition unheld (w : world) (r : gref) : Prop :=
  map_Forall (λ _ c, bridge_instance c ≠ r) (g_callbacks w) ∧
  (r < next_global w)%nat.

(** Global reference [r] is live, and no entry of the registry holds it. *)
Definition leaked (w : world) (r : gref) : Prop :=
  is_Some (globals w !! r) ∧ unheld w r.

(** The world after the entry for [k], holding [c], was released and erased. *)
Definition erased (k : Z) (c : CallbackContext) (w : world) : world :=
  set_callbacks (delete k (g_callbacks w))
    (set_globals (delete (bridge_instance c) (globals w)) (next_global w) w).

(** The table of global references after those of the entries [l] were deleted. *)
Definition without_refs (l : list (Z * CallbackContext)) (g : gmap gref object)
  : gmap gref object :=
  foldl (λ g entry, delete (bridge_instance entry.2) g) g l.

(** The calls that only pass through to the native core. *)
Definition passive (c : call) : bool :=
  match c with
  | CallInit | CallConnect _ _ _ _ _ _ _ | CallSendCot _ _
  | CallGetStatus _ | CallVersion => true
  | _ => false
  end.

(** The call is the native core calling back. *)
Definition is_callback (c : call) : bool :=
  match c with CallCotCallback _ _ => true | _ => false end.

(** The call is a registration. *)
Definition is_register (c : call) : bool :=
  match c with CallRegisterCallback _ _ => true | _ => false end.

(** The call destroys the entry for [k]. *)
Definition destroys (c : call) (k : Z) : Prop :=
  match c with
  | CallShutdown => True
  | CallUnregisterCallback id | CallDisconnect id => to_uint64 id = k
  | _ => False
  end.

(** The call stores a new entry for [k]. *)
Definition replaces (c : call) (k : Z) : Prop :=
  match c with
  | CallRegisterCallback _ id => to_uint64 id = k
  | _ => False
  end.

(** The registry a call leaves behind. *)
Definition registry_after (c : call) (w : world) : gmap Z CallbackContext :=
  match c with
  | CallShutdown => ∅
  | CallUnregisterCallback id | CallDisconnect id => delete (to_uint64 id) (g_callbacks w)
  | CallRegisterCallback _ id =>
      <[to_uint64 id := mkContext (g_jvm w) (next_global w)]> (g_callbacks w)
  | _ => g_callbacks w
  end.

Global Instance wf_dec w : Decision (wf w).
Proof.
  refine (cast_if (decide (g_callbacks_mutex w = None ∧ is_Some (g_jvm w) ∧
    map_Forall (λ _ c, is_Some (jvm c) ∧ is_Some (globals w !! bridge_instance c))
      (g_callbacks w) ∧
    map_Forall (λ k1 c1, map_Forall (λ k2 c2,
      bridge_instance c1 = bridge_instance c2 → k1 = k2) (g_callbacks w))
      (g_callbacks w) ∧
    map_Forall (λ r _, (r < next_global w)%nat) (globals w))));
  [destruct_and!; by constructor | intros []; naive_solver].
Defined.

(** ** Threads running concurrently *)

(** What each thread inside the bridge still has to do. *)
Abbreviation pool := (gmap thread (prog unit)).

(** One step of the whole system: a thread enters the bridge with a call,
    performs its next primitive operation, or returns. *)
Inductive cstep : world * pool → world * pool → Prop :=
| cstep_enter w (P : pool) t c :
    P !! t = None →
    cstep (w, P) (w, <[t := body c]> P)
| cstep_exec w (P : pool) t a k h r w' e :
    P !! t = Some (Do a k) →
    exec h t a w = Some (r, w', e) →
    cstep (w, P) (w', <[t := k r]> P)
| cstep_leave w (P : pool) t :
    P !! t = Some (Ret tt) →
    cstep (w, P) (w, delete t P).

(** Operations on [g_callbacks]. *)
Definition touches_registry (a : action) : bool :=
  match a with
  | MapFind _ | MapAssign _ _ | MapErase _ | MapIterate | MapClear => true
  | _ => false
  end.

(** Operations on the VM that attach or detach a thread, or that go through
    a [JNIEnv] to classes, methods, strings, exceptions and local
    references: all the VM work [cot_callback_bridge] does. *)
Definition crosses_runtime (a : action) : bool :=
  match a with
  | GetEnv _ _ | AttachCurrentThread _ | DetachCurrentThread _
  | GetObjectClass _ | GetMethodID _ _ _ | FindClass _ | NewObject _ _ _
  | NewStringUTF _ | GetStringUTFChars _ | ReleaseStringUTFChars _ _
  | CallVoidMethod _ _ _ _
  | ExceptionCheck | ExceptionDescribe | ExceptionClear | DeleteLocalRef _ => true
  | _ => false
  end.

(** The lock discipline of a program, [held] telling whether the running
    thread holds the mutex: the mutex is taken only when free and released
    only when held, the registry is touched only with the mutex held, the
    runtime is crossed only without it, and the program ends with the mutex
    held or not as [final] says. *)
Definition permitted (held : bool) (a : action) : bool :=
  match a with
  | MutexLock => negb held
  | MutexUnlock => held
  | _ => (if touches_registry a then held else true) &&
         (if crosses_runtime a then negb held else true)
  end.
Definition holds_after (held : bool) (a : action) : bool :=
  match a with
  | MutexLock => true
  | MutexUnlock => false
  | _ => held
  end.
Fixpoint disciplined {A} (held : bool) (p : prog A) (final : bool) : Prop :=
  match p with
  | Ret _ => held = final
  | Do a k => permitted held a = true ∧
              ∀ r, disciplined (holds_after held a) (k r) final
  end.

(** What holds of every state the threads can reach together: each thread
    inside the bridge follows the lock discipline from where it is, and the
    thread that holds the mutex is inside the bridge. *)
Definition lock_inv (cfg : world * pool) : Prop :=
  (∀ t p, cfg.2 !! t = Some p →
          disciplined (bool_decide (g_callbacks_mutex cfg.1 = Some t)) p false) ∧
  (∀ t, g_callbacks_mutex cfg.1 = Some t → is_Some (cfg.2 !! t)).

(** ** Example states and hosts *)

(** The process before the library is loaded; thread 1 is a Java thread. *)
Definition fresh_world : world :=
  mkWorld ∅ None None {[1%nat]} ∅ ∅ 0%nat.

(** The library was loaded by VM 1, and object 7 registered itself for
    connection 42. *)
Definition registered_world : world :=
  mkWorld {[42 := mkContext (Some 1%nat) 0%nat]} None (Some 1%nat)
          {[1%nat]} ∅ {[0%nat := 7%nat]} 1%nat.

(** A host on which everything succeeds: threads attach, every class has
    the method (id 3), callbacks return normally, the core returns 0. *)
Definition calm_host : host :=
  mkHost true 0 (λ o, o) (λ _ _ _, Some 3%nat) (λ _ _ _ _, false)
         (λ _, Some 9%nat) (λ _ _ _, Some 8%nat) (λ _, 0)
         (λ _, (0, mkStatus 1 0 0 0)) (Some "0.1.0"%string).

(** The same host, but native threads cannot be attached. *)
Definition no_attach_host : host :=
  mkHost true (-1) (λ o, o) (λ _ _ _, Some 3%nat) (λ _ _ _ _, false)
         (λ _, Some 9%nat) (λ _ _ _, Some 8%nat) (λ _, 0)
         (λ _, (0, mkStatus 1 0 0 0)) (Some "0.1.0"%string).

(** The same host, but every callback throws. *)
Definition throwing_host : host :=
  mkHost true 0 (λ o, o) (λ _ _ _, Some 3%nat) (λ _ _ _ _, true)
         (λ _, Some 9%nat) (λ _ _ _, Some 8%nat) (λ _, 0)
         (λ _, (0, mkStatus 1 0 0 0)) (Some "0.1.0"%string).

(** The same host as [calm_host], but the native core rejects everything. *)
Definition failing_core_host : host :=
  mkHost true 0 (λ o, o) (λ _ _ _, Some 3%nat) (λ _ _ _ _, false)
         (λ _, Some 9%nat) (λ _ _ _, Some 8%nat) (λ _, -1)
         (λ _, (-1, mkStatus 0 0 0 0)) None.

(** The calm host, but no class has the method asked for. *)
Definition no_method_host : host :=
  mkHost true 0 (λ o, o) (λ _ _ _, None) (λ _ _ _ _, false)
         (λ _, Some 9%nat) (λ _ _ _, Some 8%nat) (λ _, 0)
         (λ _, (0, mkStatus 1 0 0 0)) (Some "0.1.0"%string).

(** ** What a thread holds of the VM *)

(** What a native function has to give back to the VM before it returns:
    the local references it was handed, and the UTF buffers it pinned. *)
Inductive resource :=
| LocalRef (r : local_ref)
| UtfChars (s : java_string) (chars : string).

Global Instance java_string_eq_dec : EqDecision java_string.
Proof. solve_decision. Defined.
Global Instance local_ref_eq_dec : EqDecision local_ref.
Proof. solve_decision. Defined.
Global Instance resource_eq_dec : EqDecision resource.
Proof. solve_decision. Defined.

(** Giving [x] back: [None] when it is not held. *)
Fixpoint give_back (x : resource) (held : list resource) : option (list resource) :=
  match held with
  | [] => None
  | y :: rest =>
      if decide (x = y) then Some rest
      else cons y <$> give_back x rest
  end.

(** What one primitive operation, with the result it had, does to what the
    thread holds.  [GetObjectClass], [FindClass] and [NewStringUTF] hand out
    a local reference (unless they return null), [GetStringUTFChars] pins a
    buffer; [DeleteLocalRef] and [ReleaseStringUTFChars] give them back, and
    [DeleteLocalRef(NULL)] does nothing.  The object [NewObject] makes is
    the caller's, and is not counted. *)
Definition holding (a : action) : result a → list resource → option (list resource) :=
  match a return result a → list resource → option (list resource) with
  | GetObjectClass _ => λ c held, Some (LocalRef (LocalClass c) :: held)
  | FindClass _ => λ oc held,
      match oc with
      | Some c => Some (LocalRef (LocalClass c) :: held)
      | None => Some held
      end
  | NewStringUTF _ => λ js held,
      match js with
      | Some _ => Some (LocalRef (LocalString js) :: held)
      | None => Some held
      end
  | GetStringUTFChars s => λ chars held, Some (UtfChars s chars :: held)
  | ReleaseStringUTFChars s chars => λ _ held, give_back (UtfChars s chars) held
  | DeleteLocalRef r => λ _ held,
      match r with
      | LocalString None => Some held
      | _ => give_back (LocalRef r) held
      end
  | _ => λ _ held, Some held
  end.

(** A run that keeps book of what the thread holds; [None] also when
    something is given back that is not held. *)
Fixpoint run_holding {A} (h : host) (t : thread) (p : prog A) (w : world)
    (held : list resource) : option (A * world * list resource) :=
  match p with
  | Ret x => Some (x, w, held)
  | Do a k =>
      match exec h t a w with
      | None => None
      | Some (r, w1, _) =>
          match holding a r held with
          | None => None
          | Some held1 => run_holding h t (k r) w1 held1
          end
      end
  end.

(** The call is [nativeVersion]. *)
Definition is_version (c : call) : bool :=
  match c with CallVersion => true | _ => false end.

(** ** Bookkeeping of references and core calls *)

(** The global references the entries [l] hold. *)
Definition held_refs (l : list (Z * CallbackContext)) : list gref :=
  map (λ entry, bridge_instance entry.2) l.

(** The calls into the native core among the events, in order. *)
Definition core_calls (e : list event) : list core_call :=
  omap (λ ev, match ev with ECore c => Some c | _ => None end) e.

(** * Properties *)

(** ** Running programs *)

(** Running a sequence is running its parts in turn. *)
Lemma run_acc_bind {A B} h t (p : prog A) (f : A -> prog B) w acc :
  run_acc h t (bind p f) w acc =
  match run_acc h t p w acc with
  | None => None
  | Some (x, w1, acc1) => run_acc h t (f x) w1 acc1
  end.
Proof.
  revert w acc. induction p as [x | a k IH]; intros w acc; simpl; [done|].
  destruct (exec h t a w) as [[[r w1] e1]|]; [|done]. apply IH.
Qed.

(** The events of a run do not depend on those observed before it. *)
Lemma run_acc_app {A} h t (p : prog A) w acc :
  run_acc h t p w acc =
  match run h t p w with
  | None => None
  | Some (x, w1, e) => Some (x, w1, acc ++ e)
  end.
Proof.
  unfold run. revert w acc. induction p as [x | a k IH]; intros w acc; simpl.
  - by rewrite app_nil_r.
  - destruct (exec h t a w) as [[[r w1] e1]|]; [|done].
    rewrite (IH r w1 (acc ++ e1)), (IH r w1 e1).
    destruct (run_acc h t (k r) w1 []) as [[[x w2] e2]|]; [|done].
    by rewrite app_assoc.
Qed.

(** Symbolic execution of the next primitive operations of a program. *)
Ltac run_step :=
  cbn [run_acc exec bind act result LOGI LOGE LOGD
       g_callbacks g_callbacks_mutex g_jvm attached pending globals next_global
       set_callbacks set_mutex set_g_jvm set_attached set_pending set_globals
       jvm bridge_instance app string_to_jstring jstring_to_string].

Ltac run_done :=
  eexists _, _; (split; [reflexivity|]); unfold same_registry;
  cbn; rewrite ?Nat.eqb_refl; repeat split; try done;
  try (set_unfold; intuition congruence).

(** The second half of a dispatch, on a thread that is attached: what it
    leaves behind and what it lets the VM see. *)
Lemma invoke_spec h t w ctx vm T (nd : bool) id xml :
  jvm ctx = Some vm → globals w !! bridge_instance ctx = Some T → t ∈ attached w →
  ∃ w' e, run h t (cot_callback_bridge_invoke ctx nd id xml) w = Some (tt, w', e) ∧
    same_registry w w' ∧
    attached w' = (if nd then attached w ∖ {[t]} else attached w) ∧
    attaches t e = 0%nat ∧
    detaches t e = (if nd then 1%nat else 0%nat) ∧
    invocations e = match onCotReceived_of h T with
                    | Some m => [EInvoke t T m (to_jlong id) (to_java xml)]
                    | None => []
                    end ∧
    (is_Some (onCotReceived_of h T) → t ∉ pending w') ∧
    (∀ m, onCotReceived_of h T = Some m →
          h_throws h T m (to_jlong id) (to_java xml) = true →
          In (EExceptionClear t) e) ∧
    (∀ r, releases r e = 0%nat).
Proof.
  intros Hv Hg Ht. unfold run, cot_callback_bridge_invoke, onCotReceived_of. run_step.
  rewrite Hg, Hv. run_step.
  destruct (h_method h (h_class_of h T) _ _) as [m|]; run_step.
  - destruct xml as [s|]; run_step; rewrite Hg; run_step.
    all: destruct (h_throws _ _ _ _ _) eqn:Hthrow; run_step.
    all: case_bool_decide; run_step.
    all: destruct nd; run_step; rewrite ?decide_True by set_solver; run_step.
    all: run_done.
    all: intros m' [= <-]; rewrite ?Hthrow; try done; cbn; intros _; tauto.
  - destruct nd; run_step; rewrite ?decide_True by set_solver; run_step.
    all: run_done.
    all: intros [? ?]; done.
Qed.

(** A dispatch that finds no entry. *)
Lemma dispatch_miss h t id xml w :
  g_callbacks w !! id = None → g_callbacks_mutex w = None →
  run h t (cot_callback_bridge id xml) w =
  Some (tt, w, [ELog ANDROID_LOG_DEBUG "CoT callback triggered for connection %llu";
                ELog ANDROID_LOG_ERROR "No callback context found for connection %llu"]).
Proof.
  intros Hm Hl. unfold run, cot_callback_bridge. run_step. rewrite Hl. run_step. rewrite Hm. run_step.
  rewrite decide_True by done. run_step. destruct w; simpl in *; subst. reflexivity.
Qed.

Lemma set_mutex_restore w t :
  g_callbacks_mutex w = None → set_mutex None (set_mutex (Some t) w) = w.
Proof. destruct w; simpl; by intros ->. Qed.

Lemma invocations_app l1 l2 : invocations (l1 ++ l2) = invocations l1 ++ invocations l2.
Proof. apply List.filter_app. Qed.
Lemma releases_app r l1 l2 : releases r (l1 ++ l2) = (releases r l1 + releases r l2)%nat.
Proof. unfold releases. by rewrite List.filter_app, length_app. Qed.
Lemma attaches_app t l1 l2 : attaches t (l1 ++ l2) = (attaches t l1 + attaches t l2)%nat.
Proof. unfold attaches. by rewrite List.filter_app, length_app. Qed.
Lemma detaches_app t l1 l2 : detaches t (l1 ++ l2) = (detaches t l1 + detaches t l2)%nat.
Proof. unfold detaches. by rewrite List.filter_app, length_app. Qed.

(** A dispatch that finds an entry with a VM handle and a live reference
    to [T]. *)
Lemma dispatch_hit h t id xml w ctx vm T :
  g_callbacks w !! id = Some ctx → g_callbacks_mutex w = None →
  jvm ctx = Some vm → globals w !! bridge_instance ctx = Some T →
  ∃ w' e, run h t (cot_callback_bridge id xml) w = Some (tt, w', e) ∧
    same_registry w w' ∧
    attached w' = attached w ∧
    attaches t e = detaches t e ∧
    (t ∈ attached w → detaches t e = 0%nat) ∧
    invocations e = delivery h t w T id xml ∧
    (delivery h t w T id xml ≠ [] → t ∉ pending w') ∧
    (∀ m, enters h t w = true → onCotReceived_of h T = Some m →
          h_throws h T m (to_jlong id) (to_java xml) = true →
          In (EExceptionClear t) e) ∧
    (∀ r, releases r e = 0%nat).
Proof.
  intros Hm Hl Hv Hg. unfold run, cot_callback_bridge, delivery, enters. run_step.
  rewrite Hl. run_step. rewrite Hm. run_step.
  rewrite decide_True by done. rewrite Hv. run_step.
  rewrite (set_mutex_restore w t Hl).
  destruct (decide (t ∈ attached w)) as [Ht|Ht].
  - destruct (h_version_ok h); run_step.
    + do 2 (case_decide; [done|]).
      destruct (invoke_spec h t w ctx vm T false id xml Hv Hg Ht)
        as (w' & e & Hrun & Hreg & Hatt & Ha & Hd & Hi & Hp & Hc & Hrel).
      rewrite run_acc_app, Hrun.
      eexists _, _; split; [reflexivity|].
      rewrite attaches_app, detaches_app, invocations_app, Ha, Hd, Hi.
      split_and!; try done.
      * intros Hne. apply Hp. by destruct (onCotReceived_of h T).
      * intros m _ Hm' Hthrow. apply in_or_app. right. by apply (Hc m).
    + case_decide; [done|]. case_decide; [|done]. run_step. run_done.
  - run_step. case_decide; [|done]. run_step. rewrite decide_False by done.
    case_bool_decide as Hok.
    + rewrite decide_True by done. case_decide; [done|].
      set (w1 := set_attached ({[t]} ∪ attached w) w).
      assert (Ht1 : t ∈ attached w1) by (cbn; set_solver).
      destruct (invoke_spec h t w1 ctx vm T true id xml Hv Hg Ht1)
        as (w' & e & Hrun & Hreg & Hatt & Ha & Hd & Hi & Hp & Hc & Hrel).
      rewrite run_acc_app, Hrun.
      eexists _, _; split; [reflexivity|].
      rewrite !attaches_app, !detaches_app, !invocations_app, Ha, Hd, Hi.
      cbn. rewrite Nat.eqb_refl. cbn.
      split_and!; try done.
      * rewrite Hatt. cbn. apply set_eq. intros x.
        rewrite elem_of_difference, elem_of_union, elem_of_singleton.
        split; [tauto|]. intros Hx. split; [tauto|]. by intros ->.
      * intros Hne. apply Hp. by destruct (onCotReceived_of h T).
      * intros m _ Hm' Hthrow. do 3 right. by apply (Hc m).
    + rewrite decide_False by done. rewrite decide_True by done. run_step.
      eexists _, _; (split; [reflexivity|]); unfold same_registry.
      cbn. rewrite ?Nat.eqb_refl.
      assert ((h_attach h =? 0) = false) as -> by lia. rewrite andb_false_r.
      repeat split; try done.
Qed.

(** ** The entry points, one by one *)

Lemma set_globals_same w : set_globals (globals w) (next_global w) w = w.
Proof. by destruct w. Qed.

(** What the entry points that change the registry do, in closed form. *)
Lemma register_spec h t w thiz id :
  g_callbacks_mutex w = None →
  let k := to_uint64 id in
  let r := next_global w in
  let rc := h_core h (omnitak_register_callback k) in
  run h t (nativeRegisterCallback thiz id) w =
  Some (rc,
        set_callbacks (<[k := mkContext (g_jvm w) r]> (g_callbacks w))
          (set_globals (<[r := thiz]> (globals w)) (S r) w),
        [ELog ANDROID_LOG_INFO "nativeRegisterCallback called for connection %lld";
         ENewGlobalRef r thiz;
         EAssign k (mkContext (g_jvm w) r);
         ECore (omnitak_register_callback k);
         if decide (rc = 0)
         then ELog ANDROID_LOG_INFO "Callback registered successfully"
         else ELog ANDROID_LOG_ERROR "Failed to register callback: %d"]).
Proof.
  intros Hl k r rc. unfold run, nativeRegisterCallback. run_step. rewrite Hl. run_step.
  rewrite decide_True by done. run_step. fold k rc.
  destruct (decide (rc = 0)); run_step; destruct w; simpl in *; subst; reflexivity.
Qed.

Lemma unregister_spec h t w id :
  g_callbacks_mutex w = None →
  let k := to_uint64 id in
  run h t (nativeUnregisterCallback id) w =
  Some (h_core h (omnitak_unregister_callback k),
        match g_callbacks w !! k with Some c => erased k c w | None => w end,
        [ELog ANDROID_LOG_INFO "nativeUnregisterCallback called for connection %lld";
         ECore (omnitak_unregister_callback k)] ++
        match g_callbacks w !! k with
        | Some c => [EDeleteGlobalRef (bridge_instance c); EErase k]
        | None => []
        end).
Proof.
  intros Hl k. unfold run, nativeUnregisterCallback, erased. run_step. rewrite Hl. run_step.
  fold k. destruct (g_callbacks w !! k) as [c|]; run_step.
  all: rewrite decide_True by done; run_step.
  all: destruct w; simpl in *; subst; reflexivity.
Qed.

Lemma disconnect_spec h t w id :
  g_callbacks_mutex w = None →
  let k := to_uint64 id in
  run h t (nativeDisconnect id) w =
  Some (h_core h (omnitak_disconnect k),
        match g_callbacks w !! k with Some c => erased k c w | None => w end,
        [ELog ANDROID_LOG_INFO "nativeDisconnect called for connection %lld";
         ECore (omnitak_disconnect k)] ++
        match g_callbacks w !! k with
        | Some c => [EDeleteGlobalRef (bridge_instance c); EErase k;
                     ELog ANDROID_LOG_INFO "Callback cleaned up for connection %lld"]
        | None => []
        end).
Proof.
  intros Hl k. unfold run, nativeDisconnect, erased. run_step. rewrite Hl. run_step.
  fold k. destruct (g_callbacks w !! k) as [c|]; run_step.
  all: rewrite decide_True by done; run_step.
  all: destruct w; simpl in *; subst; reflexivity.
Qed.

Lemma delete_global_refs_spec h t l w acc :
  run_acc h t (delete_global_refs l) w acc =
  Some (tt, set_globals (without_refs l (globals w)) (next_global w) w,
        acc ++ map (λ entry, EDeleteGlobalRef (bridge_instance entry.2)) l).
Proof.
  revert w acc. induction l as [|entry l IH]; intros w acc; cbn [delete_global_refs].
  - cbn. by rewrite set_globals_same, app_nil_r.
  - run_step. rewrite IH. cbn. by rewrite <- app_assoc.
Qed.

Lemma shutdown_spec h t w :
  g_callbacks_mutex w = None →
  let l := entries (g_callbacks w) in
  run h t nativeShutdown w =
  Some (tt,
        set_callbacks ∅ (set_globals (without_refs l (globals w)) (next_global w) w),
        ELog ANDROID_LOG_INFO "nativeShutdown called" ::
        map (λ entry, EDeleteGlobalRef (bridge_instance entry.2)) l ++
        [EClear; ECoreShutdown; ELog ANDROID_LOG_INFO "Shutdown complete"]).
Proof.
  intros Hl l. unfold run, nativeShutdown. run_step. rewrite Hl. run_step.
  fold l. rewrite run_acc_bind, delete_global_refs_spec. run_step.
  rewrite decide_True by done. run_step.
  rewrite <- !app_assoc. cbn.
  destruct w; simpl in *; subst; reflexivity.
Qed.

Lemma run_ignore {A} h t (p : prog A) w :
  run h t (ignore p) w =
  match run h t p w with Some (_, w', e) => Some (tt, w', e) | None => None end.
Proof.
  unfold run, ignore. rewrite run_acc_bind.
  by destruct (run_acc h t p w []) as [[[x w'] e]|].
Qed.

Lemma jstring_to_string_spec h t (s : jstring) w acc :
  run_acc h t (jstring_to_string s) w acc =
  Some (match s with Some j => utf_chars j | None => ""%string end, w, acc).
Proof. destruct s; cbn; by rewrite ?app_nil_r. Qed.

Lemma pem_to_cstring_spec h t (s : jstring) w acc :
  run_acc h t (pem_to_cstring s) w acc = Some (utf_chars <$> s, w, acc).
Proof. destruct s; cbn; by rewrite ?app_nil_r. Qed.

(** The calls that only pass through to the native core leave the
    registry, the mutex and the global references alone. *)
Lemma passive_spec h t w c :
  passive c = true →
  ∃ w' e, run h t (body c) w = Some (tt, w', e) ∧
    same_registry w w' ∧ attached w' = attached w ∧
    (∀ r, releases r e = 0%nat) ∧ invocations e = [].
Proof.
  destruct c; try discriminate; intros _; cbn [body]; rewrite run_ignore; unfold run.
  - unfold nativeInit. run_step. run_done.
  - unfold nativeConnect. run_step.
    rewrite run_acc_bind, jstring_to_string_spec.
    do 3 rewrite run_acc_bind, pem_to_cstring_spec.
    run_step. case_decide; run_step; run_done.
  - unfold nativeSendCot. rewrite run_acc_bind, jstring_to_string_spec. run_step.
    case_decide; run_step; run_done.
  - unfold nativeGetStatus. run_step.
    destruct (h_status h _) as [result status]. case_decide; run_step; [run_done|].
    destruct (h_find_class h _) as [cls|]; run_step; [|run_done].
    destruct (h_method h _ _ _) as [ctor|]; run_step; run_done.
  - unfold nativeVersion. run_step. destruct (h_version h); run_step; run_done.
Qed.

(** ** Well-formed states *)

(** Iterating over the map visits exactly its entries. *)
Lemma elem_of_entries m k c : (k, c) ∈ entries m ↔ m !! k = Some c.
Proof. unfold entries. by rewrite merge_sort_Permutation, elem_of_map_to_list. Qed.

Lemma without_refs_cons entry l g :
  without_refs (entry :: l) g = without_refs l (delete (bridge_instance entry.2) g).
Proof. reflexivity. Qed.

Lemma without_refs_lookup_Some l g r o :
  without_refs l g !! r = Some o → g !! r = Some o.
Proof.
  revert g. induction l as [|entry l IH]; intros g; [done|].
  rewrite without_refs_cons. intros H%IH. by apply lookup_delete_Some in H as [_ ?].
Qed.

Lemma without_refs_lookup_ne l g r :
  Forall (λ entry, bridge_instance entry.2 ≠ r) l →
  without_refs l g !! r = g !! r.
Proof.
  intros Hl. revert g. induction Hl as [|entry l Hne _ IH]; intros g; [done|].
  rewrite without_refs_cons, IH. by apply lookup_delete_ne.
Qed.

Lemma without_refs_lookup_in l g entry :
  entry ∈ l → without_refs l g !! bridge_instance entry.2 = None.
Proof.
  intros Hin. destruct (without_refs l g !! bridge_instance entry.2) as [o|] eqn:E; [|done].
  exfalso. revert g E. induction Hin as [entry l|entry entry' l _ IH]; intros g;
    rewrite without_refs_cons.
  - intros H%without_refs_lookup_Some. by rewrite lookup_delete_eq in H.
  - apply IH.
Qed.

(** Every entry point keeps the state well formed. *)
Lemma wf_same_registry w w' : same_registry w w' → wf w → wf w'.
Proof.
  intros (Hc & Hm & Hj & Hg & Hn) [].
  constructor; rewrite ?Hc, ?Hm, ?Hj, ?Hg, ?Hn; done.
Qed.

Lemma wf_onload w vm : wf w → wf (set_g_jvm (Some vm) w).
Proof. intros []. constructor; cbn; eauto. Qed.

Lemma wf_register w thiz k :
  wf w →
  wf (set_callbacks (<[k := mkContext (g_jvm w) (next_global w)]> (g_callbacks w))
        (set_globals (<[next_global w := thiz]> (globals w)) (S (next_global w)) w)).
Proof.
  intros [Hm Hj He Hd Hf]. constructor; cbn; try done.
  - apply map_Forall_insert_2.
    + cbn. split; [done|]. rewrite lookup_insert_eq. eauto.
    + intros k' c Hc. destruct (He k' c Hc) as [? [o Ho]]. split; [done|].
      destruct (decide (next_global w = bridge_instance c)) as [E|E].
      * rewrite <- E, lookup_insert_eq. eauto.
      * rewrite lookup_insert_ne by done. eauto.
  - assert (Hold : ∀ k' c, g_callbacks w !! k' = Some c → bridge_instance c ≠ next_global w).
    { intros k' c Hc E. destruct (He k' c Hc) as [_ [o Ho]].
      specialize (Hf _ _ Ho). cbn in Hf. lia. }
    intros k1 c1 H1 k2 c2 H2 E.
    apply lookup_insert_Some in H1 as [[<- <-]|[Hne1 H1]];
      apply lookup_insert_Some in H2 as [[<- <-]|[Hne2 H2]]; cbn in *; try done.
    + by apply Hold in H2.
    + symmetry in E. by apply Hold in H1.
    + by apply (Hd k1 c1 H1 k2 c2 H2).
  - apply map_Forall_insert_2; [lia|].
    intros r o Ho. specialize (Hf r o Ho). cbn in Hf. lia.
Qed.

Lemma wf_erased w k c : g_callbacks w !! k = Some c → wf w → wf (erased k c w).
Proof.
  intros Hk [Hm Hj He Hd Hf]. constructor; cbn; try done.
  - intros k' c' Hc'. apply lookup_delete_Some in Hc' as [Hne Hc'].
    destruct (He k' c' Hc') as [? [o Ho]]. split; [done|].
    rewrite lookup_delete_ne; [eauto|].
    intros E. by apply Hne, (Hd k c Hk k' c' Hc').
  - intros k1 c1 [_ H1]%lookup_delete_Some k2 c2 [_ H2]%lookup_delete_Some.
    by apply (Hd k1 c1 H1 k2 c2 H2).
  - intros r o [_ Ho]%lookup_delete_Some. by apply (Hf r o).
Qed.

Lemma wf_shutdown w l :
  wf w →
  wf (set_callbacks ∅ (set_globals (without_refs l (globals w)) (next_global w) w)).
Proof.
  intros [Hm Hj He Hd Hf]. constructor; cbn; try done.
  intros r o Ho%without_refs_lookup_Some. by apply (Hf r o).
Qed.

(** Between calls the bridge is always in a well-formed state, and no call
    gets stuck in one. *)
Lemma wf_step h t c w :
  wf w → ∃ w' e, run h t (body c) w = Some (tt, w', e) ∧ wf w'.
Proof.
  intros Hwf. pose proof (wf_mutex w Hwf) as Hl.
  destruct (passive c) eqn:Hp.
  { destruct (passive_spec h t w c Hp) as (w' & e & Hr & Hs & _).
    eauto using wf_same_registry. }
  destruct c; try discriminate; cbn [body]; rewrite ?run_ignore.
  - unfold run, JNI_OnLoad. run_step. eexists _, _. split; [done|]. by apply wf_onload.
  - rewrite shutdown_spec by done. eauto using wf_shutdown.
  - rewrite disconnect_spec by done. eexists _, _. split; [done|].
    destruct (g_callbacks w !! to_uint64 connectionId) eqn:E; eauto using wf_erased.
  - rewrite register_spec by done. eauto using wf_register.
  - rewrite unregister_spec by done. eexists _, _. split; [done|].
    destruct (g_callbacks w !! to_uint64 connectionId) eqn:E; eauto using wf_erased.
  - destruct (g_callbacks w !! connection_id) as [ctx|] eqn:E.
    + destruct (wf_entries w Hwf _ _ E) as [[vm Hvm] [T HT]].
      destruct (dispatch_hit h t connection_id cot_xml w ctx vm T E Hl Hvm HT)
        as (w' & e & Hr & Hs & _).
      eauto using wf_same_registry.
    + rewrite dispatch_miss by done. eauto.
Qed.

Lemma wf_run_calls s : ∀ w acc,
  wf w → ∃ w' e, run_calls s w acc = Some (w', acc ++ e) ∧ wf w'.
Proof.
  induction s as [|[[h t] c] s IH]; intros w acc Hwf; cbn [run_calls].
  - exists w, []. by rewrite app_nil_r.
  - destruct (wf_step h t c w Hwf) as (w1 & e1 & Hrun & Hwf1).
    rewrite run_acc_app, Hrun.
    destruct (IH w1 (acc ++ e1) Hwf1) as (w' & e & -> & Hwf').
    exists w', (e1 ++ e). by rewrite app_assoc.
Qed.

(** Once the library is loaded, whatever calls are made, one after the
    other, the bridge ends up in a well-formed state. *)
Lemma wf_after_load h t vm s :
  ∃ w e, run_calls ((h, t, CallOnLoad vm) :: s) fresh_world [] = Some (w, e) ∧ wf w.
Proof.
  cbn [run_calls body]. rewrite run_acc_app, run_ignore. unfold run, JNI_OnLoad. run_step.
  destruct (wf_run_calls s (set_g_jvm (Some vm) fresh_world)
              [ELog ANDROID_LOG_INFO "JNI_OnLoad called"]) as (w & e & -> & Hwf).
  { apply (bool_decide_unpack (wf _)). vm_compute. exact I. }
  eauto.
Qed.

(** [registered_world] is where the load of the library and one
    registration lead. *)
Lemma registered_world_reached :
  ∃ e, run_calls [(calm_host, 1%nat, CallOnLoad 1%nat);
                  (calm_host, 1%nat, CallRegisterCallback 7%nat 42)] fresh_world []
       = Some (registered_world, e).
Proof. eexists. vm_compute. reflexivity. Qed.

(** The casts between the [jlong] of the Kotlin side and the [uint64_t] of
    the native core lose nothing. *)
Lemma to_jlong_to_uint64 c : - 2 ^ 63 <= c < 2 ^ 63 → to_jlong (to_uint64 c) = c.
Proof.
  intros Hc. unfold to_jlong, to_uint64.
  rewrite Zplus_mod_idemp_l.
  rewrite Z.mod_small by lia. lia.
Qed.

Lemma to_uint64_to_jlong k : 0 <= k < 2 ^ 64 → to_uint64 (to_jlong k) = k.
Proof.
  intros Hk. unfold to_jlong, to_uint64.
  rewrite Zminus_mod_idemp_l.
  replace (k + 2 ^ 63 - 2 ^ 63) with k by lia.
  by apply Z.mod_small.
Qed.

(** ** Dispatch *)

Lemma registered_hit h t w id T xml :
  g_callbacks_mutex w = None → registered w id T →
  ∃ w' e, run h t (cot_callback_bridge id xml) w = Some (tt, w', e) ∧
    same_registry w w' ∧
    attached w' = attached w ∧
    attaches t e = detaches t e ∧
    (t ∈ attached w → detaches t e = 0%nat) ∧
    invocations e = delivery h t w T id xml ∧
    (delivery h t w T id xml ≠ [] → t ∉ pending w') ∧
    (∀ m, enters h t w = true → onCotReceived_of h T = Some m →
          h_throws h T m (to_jlong id) (to_java xml) = true →
          In (EExceptionClear t) e) ∧
    (∀ r, releases r e = 0%nat).
Proof.
  intros Hl (ctx & Hc & [vm Hvm] & HT). by eapply dispatch_hit.
Qed.

(** C1, as amended: for a connection id registered with target T, one
    dispatch on a thread that is attached, or that can be attached, and with
    onCotReceived resolving on the class of T, invokes that method of T
    exactly once, with the id (as a jlong) and the payload converted to a
    Java string; when the thread cannot enter the runtime or the method does
    not resolve, the dispatch returns without invoking anything. *)
Theorem dispatch_invokes_target_once h t w id T xml :
  g_callbacks_mutex w = None →
  registered w id T →
  ∃ w' e, run h t (cot_callback_bridge id xml) w = Some (tt, w', e) ∧
    (∀ m, enters h t w = true → onCotReceived_of h T = Some m →
          invocations e = [EInvoke t T m (to_jlong id) (to_java xml)]) ∧
    (enters h t w = false ∨ onCotReceived_of h T = None → invocations e = []).
Proof.
  intros Hl Hreg.
  destruct (registered_hit h t w id T xml Hl Hreg) as (w' & e & Hr & _ & _ & _ & _ & Hi & _).
  exists w', e. split; [done|]. rewrite Hi. unfold delivery. split.
  - by intros m -> ->.
  - intros [-> | ->]; [done|]. by destruct (enters h t w).
Qed.

Lemma dispatch_invokes_target_once_witness :
  ∃ w' e, run calm_host 2%nat (cot_callback_bridge 42 (Some "hello"%string)) registered_world
          = Some (tt, w', e) ∧
    (∀ m, enters calm_host 2%nat registered_world = true →
          onCotReceived_of calm_host 7%nat = Some m →
          invocations e = [EInvoke 2%nat 7%nat m (to_jlong 42) (to_java (Some "hello"%string))]) ∧
    (enters calm_host 2%nat registered_world = false ∨
     onCotReceived_of calm_host 7%nat = None → invocations e = []).
Proof.
  apply (dispatch_invokes_target_once calm_host 2%nat registered_world 42 7%nat
           (Some "hello"%string)).
  - reflexivity.
  - exists (mkContext (Some 1%nat) 0%nat). split_and!; [reflexivity | by eexists | reflexivity].
Defined.

(** C1, as stated, fails: connection 42 is registered with target 7, yet a
    dispatch on a native thread that the VM refuses to attach invokes
    nothing. *)
Lemma dispatch_without_invocation :
  registered registered_world 42 7%nat ∧
  ∃ w' e, run no_attach_host 2%nat (cot_callback_bridge 42 (Some "hello"%string))
            registered_world = Some (tt, w', e) ∧
          invocations e = [].
Proof.
  split.
  - exists (mkContext (Some 1%nat) 0%nat). split_and!; [reflexivity | by eexists | reflexivity].
  - eexists _, _. split; [vm_compute; reflexivity | reflexivity].
Qed.

(** C2: a dispatch for a connection id that has no entry in the registry
    returns normally, leaves the world as it was, and does nothing but log:
    no callback is invoked. *)
Theorem dispatch_unregistered_is_noop h t w id xml :
  g_callbacks_mutex w = None →
  g_callbacks w !! id = None →
  ∃ e, run h t (cot_callback_bridge id xml) w = Some (tt, w, e) ∧
       forallb is_log e = true ∧
       In (ELog ANDROID_LOG_ERROR "No callback context found for connection %llu") e ∧
       invocations e = [].
Proof.
  intros Hl Hm. rewrite dispatch_miss by done.
  eexists. split; [done|]. split_and!; [done | | done]. right. by left.
Qed.

Lemma dispatch_unregistered_is_noop_witness :
  ∃ e, run calm_host 2%nat (cot_callback_bridge 99 (Some "x"%string)) registered_world
       = Some (tt, registered_world, e) ∧
       forallb is_log e = true ∧
       In (ELog ANDROID_LOG_ERROR "No callback context found for connection %llu") e ∧
       invocations e = [].
Proof.
  apply (dispatch_unregistered_is_noop calm_host 2%nat registered_world 99 (Some "x"%string)).
  - reflexivity.
  - reflexivity.
Defined.

(** C4: whatever happens in a dispatch, it returns with the same threads
    attached as before: the calling thread is detached as often as it was
    attached, and not at all when it was attached already. *)
Theorem dispatch_restores_attachment h t w id xml :
  wf w →
  ∃ w' e, run h t (cot_callback_bridge id xml) w = Some (tt, w', e) ∧
          attached w' = attached w ∧
          attaches t e = detaches t e ∧
          (t ∈ attached w → detaches t e = 0%nat).
Proof.
  intros Hwf. pose proof (wf_mutex w Hwf) as Hl.
  destruct (g_callbacks w !! id) as [ctx|] eqn:E.
  - destruct (wf_entries w Hwf _ _ E) as [[vm Hvm] [T HT]].
    destruct (dispatch_hit h t id xml w ctx vm T E Hl Hvm HT)
      as (w' & e & Hr & _ & Ha & Hc & Hd & _).
    by exists w', e.
  - rewrite dispatch_miss by done. by eexists _, _.
Qed.

Lemma dispatch_restores_attachment_witness :
  ∃ w' e, run calm_host 2%nat (cot_callback_bridge 42 (Some "hello"%string)) registered_world
          = Some (tt, w', e) ∧
          attached w' = attached registered_world ∧
          attaches 2%nat e = detaches 2%nat e ∧
          (2%nat ∈ attached registered_world → detaches 2%nat e = 0%nat).
Proof.
  apply (dispatch_restores_attachment calm_host 2%nat registered_world 42 (Some "hello"%string)).
  apply (bool_decide_unpack (wf registered_world)). vm_compute. exact I.
Defined.

Lemma registered_same_registry w w' id T :
  same_registry w w' → registered w id T → registered w' id T.
Proof.
  intros (Hc & _ & _ & Hg & _) (ctx & ? & ? & ?). exists ctx. by rewrite Hc, Hg.
Qed.

Lemma enters_same_attached h t w w' : attached w' = attached w → enters h t w' = enters h t w.
Proof. unfold enters. by intros ->. Qed.

Lemma invocations_In x e : In x (invocations e) → In x e.
Proof. unfold invocations. by intros [? _]%List.filter_In. Qed.

(** C5: when the invoked callback throws, the dispatch still returns
    normally, with the exception cleared and none left pending on the
    calling thread; the registry and the table of global references are
    as before, and a later dispatch to any registered connection makes the
    very invocation it would have made had the fault not happened: exactly
    one, whenever its thread can enter the runtime and the method resolves. *)
Theorem callback_fault_is_contained h t w id T xml m :
  g_callbacks_mutex w = None →
  registered w id T →
  enters h t w = true →
  onCotReceived_of h T = Some m →
  h_throws h T m (to_jlong id) (to_java xml) = true →
  ∃ w' e, run h t (cot_callback_bridge id xml) w = Some (tt, w', e) ∧
    In (EInvoke t T m (to_jlong id) (to_java xml)) e ∧
    In (EExceptionClear t) e ∧
    (t ∉ pending w') ∧
    same_registry w w' ∧
    ∀ h2 t2 id2 T2 xml2,
      registered w id2 T2 →
      ∃ w'' e2, run h2 t2 (cot_callback_bridge id2 xml2) w' = Some (tt, w'', e2) ∧
                invocations e2 = delivery h2 t2 w T2 id2 xml2 ∧
                ∀ m2, enters h2 t2 w = true →
                      onCotReceived_of h2 T2 = Some m2 →
                      invocations e2 = [EInvoke t2 T2 m2 (to_jlong id2) (to_java xml2)].
Proof.
  intros Hl Hreg Hent Hm Hthrow.
  destruct (registered_hit h t w id T xml Hl Hreg)
    as (w' & e & Hr & Hs & Ha & _ & _ & Hi & Hp & Hc & _).
  unfold delivery in Hi, Hp. rewrite Hent, Hm in Hi, Hp.
  exists w', e. split_and!; try done.
  - apply invocations_In. rewrite Hi. by left.
  - by apply (Hc m).
  - by apply Hp.
  - intros h2 t2 id2 T2 xml2 Hreg2.
    destruct Hs as (? & Hl' & ?).
    destruct (registered_hit h2 t2 w' id2 T2 xml2) as (w'' & e2 & Hr2 & _ & _ & _ & _ & Hi2 & _).
    { by rewrite Hl'. }
    { by apply (registered_same_registry w). }
    exists w'', e2. split; [done|].
    assert (invocations e2 = delivery h2 t2 w T2 id2 xml2) as Hd.
    { rewrite Hi2. unfold delivery. by rewrite (enters_same_attached h2 t2 w w' Ha). }
    split; [done|]. intros m2 Hent2 Hm2. rewrite Hd. unfold delivery.
    by rewrite Hent2, Hm2.
Qed.

Lemma callback_fault_is_contained_witness :
  ∃ w' e, run throwing_host 2%nat (cot_callback_bridge 42 (Some "hello"%string))
            registered_world = Some (tt, w', e) ∧
    In (EInvoke 2%nat 7%nat 3%nat 42 (Some (JavaString "hello"))) e ∧
    In (EExceptionClear 2%nat) e ∧
    (2%nat ∉ pending w') ∧
    same_registry registered_world w' ∧
    ∀ h2 t2 id2 T2 xml2,
      registered registered_world id2 T2 →
      ∃ w'' e2, run h2 t2 (cot_callback_bridge id2 xml2) w' = Some (tt, w'', e2) ∧
                invocations e2 = delivery h2 t2 registered_world T2 id2 xml2 ∧
                ∀ m2, enters h2 t2 registered_world = true →
                      onCotReceived_of h2 T2 = Some m2 →
                      invocations e2 = [EInvoke t2 T2 m2 (to_jlong id2) (to_java xml2)].
Proof.
  apply (callback_fault_is_contained throwing_host 2%nat registered_world 42 7%nat
           (Some "hello"%string) 3%nat).
  - reflexivity.
  - exists (mkContext (Some 1%nat) 0%nat). split_and!; [reflexivity | by eexists | reflexivity].
  - reflexivity.
  - reflexivity.
  - reflexivity.
Defined.

(** With an empty registry, a call that is not a registration leaves the
    registry empty and invokes nothing; a callback changes nothing at all. *)
Lemma empty_registry_step h t c w :
  g_callbacks w = ∅ → g_callbacks_mutex w = None → is_register c = false →
  ∃ w' e, run h t (body c) w = Some (tt, w', e) ∧
          g_callbacks w' = ∅ ∧ g_callbacks_mutex w' = None ∧
          invocations e = [] ∧
          (is_callback c = true → w' = w).
Proof.
  intros He Hl Hc.
  destruct (passive c) eqn:Hp.
  { destruct (passive_spec h t w c Hp) as (w' & e & Hr & (Hg & Hm & _) & _ & _ & Hi).
    exists w', e. rewrite Hg, Hm. split_and!; try done. by destruct c. }
  destruct c; try discriminate; cbn [body]; rewrite ?run_ignore.
  - unfold run, JNI_OnLoad. run_step. by eexists _, _.
  - rewrite shutdown_spec by done. rewrite He. by eexists _, _.
  - rewrite disconnect_spec by done. rewrite He, lookup_empty. by eexists _, _.
  - rewrite unregister_spec by done. rewrite He, lookup_empty. by eexists _, _.
  - rewrite dispatch_miss by (by rewrite ?He). by eexists _, _.
Qed.

Lemma empty_registry_run s : ∀ w acc,
  Forall (λ x, is_register x.2 = false) s →
  g_callbacks w = ∅ → g_callbacks_mutex w = None → invocations acc = [] →
  ∃ w' e, run_calls s w acc = Some (w', e) ∧
          invocations e = [] ∧
          (Forall (λ x, is_callback x.2 = true) s → w' = w).
Proof.
  induction s as [|[[h t] c] s IH]; intros w acc Hs He Hl Hacc; cbn [run_calls].
  { by exists w, acc. }
  apply Forall_cons in Hs as [Hc Hs].
  destruct (empty_registry_step h t c w He Hl Hc) as (w1 & e1 & Hr & He1 & Hl1 & Hi & Hsame).
  rewrite run_acc_app, Hr.
  destruct (IH w1 (acc ++ e1) Hs He1 Hl1) as (w2 & e2 & Hr2 & Hi2 & Hsame2).
  { by rewrite invocations_app, Hacc, Hi. }
  exists w2, e2. split_and!; try done.
  intros [Hcb Hrest]%Forall_cons. rewrite (Hsame2 Hrest). by apply Hsame.
Qed.

(** C6: after nativeShutdown the registry is empty, and as long as nothing
    registers again, whatever calls follow invoke no callback; the
    callbacks among them change nothing at all. *)
Theorem dispatch_after_shutdown_is_noop h t w s :
  g_callbacks_mutex w = None →
  Forall (λ x, is_register x.2 = false) s →
  ∃ w1 e1, run h t nativeShutdown w = Some (tt, w1, e1) ∧
           g_callbacks w1 = ∅ ∧
           ∃ w2 e2, run_calls s w1 [] = Some (w2, e2) ∧
                    invocations e2 = [] ∧
                    (Forall (λ x, is_callback x.2 = true) s → w2 = w1).
Proof.
  intros Hl Hs. rewrite shutdown_spec by done. eexists _, _. split; [done|].
  split; [done|]. by apply empty_registry_run.
Qed.

Lemma dispatch_after_shutdown_is_noop_witness :
  ∃ w1 e1, run calm_host 1%nat nativeShutdown registered_world = Some (tt, w1, e1) ∧
           g_callbacks w1 = ∅ ∧
           ∃ w2 e2,
             run_calls [(calm_host, 2%nat, CallCotCallback 42 (Some "hello"%string));
                        (calm_host, 3%nat, CallCotCallback 99 None)] w1 []
             = Some (w2, e2) ∧
             invocations e2 = [] ∧
             (Forall (λ x, is_callback x.2 = true)
                [(calm_host, 2%nat, CallCotCallback 42 (Some "hello"%string));
                 (calm_host, 3%nat, CallCotCallback 99 None)] → w2 = w1).
Proof.
  apply (dispatch_after_shutdown_is_noop calm_host 1%nat registered_world
           [(calm_host, 2%nat, CallCotCallback 42 (Some "hello"%string));
            (calm_host, 3%nat, CallCotCallback 99 None)]).
  - reflexivity.
  - repeat constructor.
Defined.

(** ** Registration *)

(** C10: nativeRegisterCallback makes the global reference and stores the
    entry before it calls omnitak_register_callback, and returns whatever
    that call returned, zero or not, with the entry and the reference still
    in place. *)
Theorem register_keeps_entry_whatever_core_returns h t w thiz id :
  g_callbacks_mutex w = None →
  ∃ w' before after,
    run h t (nativeRegisterCallback thiz id) w =
      Some (h_core h (omnitak_register_callback (to_uint64 id)), w',
            before ++ ECore (omnitak_register_callback (to_uint64 id)) :: after) ∧
    In (ENewGlobalRef (next_global w) thiz) before ∧
    In (EAssign (to_uint64 id) (mkContext (g_jvm w) (next_global w))) before ∧
    g_callbacks w' !! to_uint64 id = Some (mkContext (g_jvm w) (next_global w)) ∧
    globals w' !! next_global w = Some thiz ∧
    forallb is_log after = true.
Proof.
  intros Hl. rewrite register_spec by done.
  eexists _, [_; _; _], [_]. split; [reflexivity|].
  cbn. rewrite !lookup_insert_eq. split_and!; try tauto. by case_decide.
Qed.

Lemma register_keeps_entry_whatever_core_returns_witness :
  ∃ w' before after,
    run failing_core_host 1%nat (nativeRegisterCallback 7%nat 43) registered_world =
      Some (-1, w', before ++ ECore (omnitak_register_callback 43) :: after) ∧
    In (ENewGlobalRef 1%nat 7%nat) before ∧
    In (EAssign 43 (mkContext (Some 1%nat) 1%nat)) before ∧
    g_callbacks w' !! 43 = Some (mkContext (Some 1%nat) 1%nat) ∧
    globals w' !! 1%nat = Some 7%nat ∧
    forallb is_log after = true.
Proof.
  apply (register_keeps_entry_whatever_core_returns failing_core_host 1%nat
           registered_world 7%nat 43).
  reflexivity.
Defined.

(** ** Lifetime of entries and references *)

Lemma releases_deleted r (l : list (Z * CallbackContext)) :
  Forall (λ entry, bridge_instance entry.2 ≠ r) l →
  releases r (map (λ entry, EDeleteGlobalRef (bridge_instance entry.2)) l) = 0%nat.
Proof.
  induction 1 as [|entry l Hne _ IH]; [done|].
  unfold releases in *. cbn. by rewrite (proj2 (Nat.eqb_neq _ _)).
Qed.

(** What a call can do to a global reference that no entry holds, or that
    only entries the call does not destroy hold: nothing. *)
Lemma reference_kept h t c w r :
  wf w → (r < next_global w)%nat →
  (∀ k ctx, g_callbacks w !! k = Some ctx → bridge_instance ctx = r → ¬ destroys c k) →
  ∃ w' e, run h t (body c) w = Some (tt, w', e) ∧ wf w' ∧
          (next_global w ≤ next_global w')%nat ∧
          globals w' !! r = globals w !! r ∧ releases r e = 0%nat.
Proof.
  intros Hwf Hr Hkeep. pose proof (wf_mutex w Hwf) as Hl.
  destruct (wf_step h t c w Hwf) as (w' & e & Hrun & Hwf').
  exists w', e. split; [done|]. split; [done|]. revert Hrun.
  destruct (passive c) eqn:Hp.
  { destruct (passive_spec h t w c Hp)
      as (w2 & e2 & -> & (_ & _ & _ & Hg & Hn) & _ & Hrel & _).
    intros [= <- <-]. by rewrite Hg, Hn. }
  destruct c; try discriminate; cbn [body]; rewrite ?run_ignore.
  - unfold run, JNI_OnLoad. run_step. by intros [= <- <-].
  - rewrite shutdown_spec by done. intros [= <- <-]. cbn.
    assert (Forall (λ entry, bridge_instance entry.2 ≠ r) (entries (g_callbacks w))) as Hall.
    { apply Forall_forall. intros [k ctx] Hin%elem_of_entries E. by apply (Hkeep k ctx). }
    split; [done|]. split; [by apply without_refs_lookup_ne|].
    pose proof (releases_deleted r _ Hall) as Hz. unfold releases in Hz.
    by rewrite List.filter_app, length_app, Hz.
  - rewrite disconnect_spec by done. intros [= <- <-].
    destruct (g_callbacks w !! to_uint64 connectionId) as [ctx|] eqn:E; [|done].
    assert (bridge_instance ctx ≠ r) by (intros ?; by apply (Hkeep _ ctx E)).
    cbn. rewrite lookup_delete_ne by done. split_and!; try done.
    by rewrite (proj2 (Nat.eqb_neq r (bridge_instance ctx))).
  - rewrite register_spec by done. intros [= <- <-]. cbn.
    split_and!; [lia | | by case_decide].
    rewrite lookup_insert_ne by lia. done.
  - rewrite unregister_spec by done. intros [= <- <-].
    destruct (g_callbacks w !! to_uint64 connectionId) as [ctx|] eqn:E; [|done].
    assert (bridge_instance ctx ≠ r) by (intros ?; by apply (Hkeep _ ctx E)).
    cbn. rewrite lookup_delete_ne by done. split_and!; try done.
    by rewrite (proj2 (Nat.eqb_neq r (bridge_instance ctx))).
  - destruct (g_callbacks w !! connection_id) as [ctx|] eqn:E.
    + destruct (wf_entries w Hwf _ _ E) as [[vm Hvm] [T HT]].
      destruct (dispatch_hit h t connection_id cot_xml w ctx vm T E Hl Hvm HT)
        as (w2 & e2 & -> & (_ & _ & _ & Hg & Hn) & _ & _ & _ & _ & _ & _ & Hrel).
      intros [= <- <-]. by rewrite Hg, Hn.
    + rewrite dispatch_miss by done. by intros [= <- <-].
Qed.

(** The registry after a call, whatever the host did. *)
Lemma registry_step h t c w w' e :
  wf w → run h t (body c) w = Some (tt, w', e) →
  g_callbacks w' = registry_after c w.
Proof.
  intros Hwf. pose proof (wf_mutex w Hwf) as Hl.
  destruct (passive c) eqn:Hp.
  { destruct (passive_spec h t w c Hp) as (w2 & e2 & -> & (Hc & _) & _).
    intros [= <- <-]. rewrite Hc. by destruct c. }
  destruct c; try discriminate; cbn [body registry_after]; rewrite ?run_ignore.
  - unfold run, JNI_OnLoad. run_step. by intros [= <- <-].
  - rewrite shutdown_spec by done. by intros [= <- <-].
  - rewrite disconnect_spec by done. intros [= <- <-].
    destruct (g_callbacks w !! to_uint64 connectionId) as [ctx|] eqn:E; [done|].
    by rewrite delete_id.
  - rewrite register_spec by done. by intros [= <- <-].
  - rewrite unregister_spec by done. intros [= <- <-].
    destruct (g_callbacks w !! to_uint64 connectionId) as [ctx|] eqn:E; [done|].
    by rewrite delete_id.
  - destruct (g_callbacks w !! connection_id) as [ctx|] eqn:E.
    + destruct (wf_entries w Hwf _ _ E) as [[vm Hvm] [T HT]].
      destruct (dispatch_hit h t connection_id cot_xml w ctx vm T E Hl Hvm HT)
        as (w2 & e2 & -> & (Hc & _) & _).
      by intros [= <- <-].
    + rewrite dispatch_miss by done. by intros [= <- <-].
Qed.

(** A reference that no entry holds is out of reach of the bridge for good:
    no call releases it or changes what it refers to. *)
Lemma unheld_step h t c w r :
  wf w → unheld w r →
  ∃ w' e, run h t (body c) w = Some (tt, w', e) ∧ wf w' ∧ unheld w' r ∧
          globals w' !! r = globals w !! r ∧ releases r e = 0%nat.
Proof.
  intros Hwf [Hno Hlt].
  destruct (reference_kept h t c w r Hwf Hlt) as (w' & e & Hrun & Hwf' & Hn & Hg & Hrel).
  { intros k ctx Hk E. by destruct (Hno k ctx Hk). }
  exists w', e. split_and!; try done. split; [|lia].
  rewrite (registry_step h t c w w' e Hwf Hrun).
  destruct c; cbn [registry_after]; try done.
  - by apply map_Forall_delete.
  - apply map_Forall_insert_2; [cbn; lia|done].
  - by apply map_Forall_delete.
Qed.

Lemma unheld_forever s : ∀ w r acc w' acc',
  wf w → unheld w r → run_calls s w acc = Some (w', acc') →
  ∃ e, acc' = acc ++ e ∧ wf w' ∧ unheld w' r ∧
       globals w' !! r = globals w !! r ∧ releases r e = 0%nat.
Proof.
  induction s as [|[[h t] c] s IH]; intros w r acc w' acc' Hwf Hun; cbn [run_calls].
  - intros [= <- <-]. exists []. by rewrite app_nil_r.
  - destruct (unheld_step h t c w r Hwf Hun) as (w1 & e1 & Hrun & Hwf1 & Hun1 & Hg1 & Hrel1).
    rewrite run_acc_app, Hrun. intros Hrest.
    destruct (IH _ _ _ _ _ Hwf1 Hun1 Hrest) as (e2 & -> & ? & ? & Hg2 & Hrel2).
    exists (e1 ++ e2). rewrite app_assoc, releases_app, Hrel1, Hrel2, Hg2, Hg1. done.
Qed.

Lemma wf_decide w : bool_decide (wf w) = true → wf w.
Proof. intros H. by apply (bool_decide_unpack (wf w)), Is_true_true. Qed.

(** C3: a registration followed by the unregistration of the same id
    releases the global reference made for the target exactly once: once
    in these two calls, leaving neither the reference nor the entry
    behind, and never again in whatever calls follow. *)
Theorem register_unregister_releases_once h1 t1 h2 t2 w thiz id :
  wf w →
  ∃ rc1 w1 e1 rc2 w2 e2,
    run h1 t1 (nativeRegisterCallback thiz id) w = Some (rc1, w1, e1) ∧
    run h2 t2 (nativeUnregisterCallback id) w1 = Some (rc2, w2, e2) ∧
    In (ENewGlobalRef (next_global w) thiz) e1 ∧
    releases (next_global w) (e1 ++ e2) = 1%nat ∧
    globals w2 !! next_global w = None ∧
    g_callbacks w2 !! to_uint64 id = None ∧
    ∀ s w3 e3, run_calls s w2 [] = Some (w3, e3) →
               releases (next_global w) e3 = 0%nat.
Proof.
  intros Hwf. pose proof (wf_mutex w Hwf) as Hl.
  rewrite register_spec by done.
  eexists _, _, _, _, _, _. split; [reflexivity|].
  set (w1 := set_callbacks _ _).
  assert (Hwf1 : wf w1) by by apply wf_register.
  assert (Hk : g_callbacks w1 !! to_uint64 id
               = Some (mkContext (g_jvm w) (next_global w))) by apply lookup_insert_eq.
  rewrite unregister_spec by done. rewrite Hk. split; [reflexivity|].
  pose (w2 := erased (to_uint64 id) (mkContext (g_jvm w) (next_global w)) w1).
  assert (Hwf2 : wf w2) by by apply wf_erased.
  assert (Hun : unheld w2 (next_global w)).
  { split; cbn; [|lia].
    rewrite delete_insert_eq. apply map_Forall_delete.
    intros k c Hc E. destruct (wf_entries w Hwf _ _ Hc) as [_ [o Ho]].
    pose proof (wf_fresh w Hwf _ _ Ho) as Hlt. cbn in Hlt. lia. }
  split_and!.
  - cbn. tauto.
  - cbn. rewrite Nat.eqb_refl. by case_decide.
  - cbn. apply lookup_delete_eq.
  - cbn. apply lookup_delete_eq.
  - intros s w3 e3 Hrun.
    by destruct (unheld_forever s w2 _ [] w3 e3 Hwf2 Hun Hrun) as (e & -> & _ & _ & _ & ?).
Qed.

(** Object 7 registers for connection 43 and unregisters again, next to the
    registration of connection 42. *)
Lemma register_unregister_releases_once_witness :
  ∃ rc1 w1 e1 rc2 w2 e2,
    run calm_host 1%nat (nativeRegisterCallback 7%nat 43) registered_world
      = Some (rc1, w1, e1) ∧
    run calm_host 1%nat (nativeUnregisterCallback 43) w1 = Some (rc2, w2, e2) ∧
    In (ENewGlobalRef (next_global registered_world) 7%nat) e1 ∧
    releases (next_global registered_world) (e1 ++ e2) = 1%nat ∧
    globals w2 !! next_global registered_world = None ∧
    g_callbacks w2 !! to_uint64 43 = None ∧
    ∀ s w3 e3, run_calls s w2 [] = Some (w3, e3) →
               releases (next_global registered_world) e3 = 0%nat.
Proof.
  apply (register_unregister_releases_once calm_host 1%nat calm_host 1%nat
           registered_world 7%nat 43).
  apply wf_decide. vm_compute. reflexivity.
Defined.

(** C7: registering a connection id that already has an entry puts a new
    entry in its place, with the current VM handle and a fresh global
    reference to the new target; the registry gets no second entry for the
    id, and the global reference of the old entry is not released: it stays
    live, no entry holds it any more, and no later call releases it. *)
Theorem reregister_overwrites_and_leaks h t w thiz id old :
  wf w →
  g_callbacks w !! to_uint64 id = Some old →
  ∃ rc w' e, run h t (nativeRegisterCallback thiz id) w = Some (rc, w', e) ∧
    g_callbacks w' !! to_uint64 id = Some (mkContext (g_jvm w) (next_global w)) ∧
    dom (g_callbacks w') = dom (g_callbacks w) ∧
    globals w' !! next_global w = Some thiz ∧
    next_global w ≠ bridge_instance old ∧
    releases (bridge_instance old) e = 0%nat ∧
    leaked w' (bridge_instance old) ∧
    ∀ s w'' e', run_calls s w' [] = Some (w'', e') →
                leaked w'' (bridge_instance old) ∧
                releases (bridge_instance old) e' = 0%nat.
Proof.
  intros Hwf Hold. pose proof (wf_mutex w Hwf) as Hl.
  rewrite register_spec by done. eexists _, _, _. split; [reflexivity|].
  set (w' := set_callbacks _ _).
  assert (Hwf' : wf w') by by apply wf_register.
  destruct (wf_entries w Hwf _ _ Hold) as [_ [o Ho]].
  pose proof (wf_fresh w Hwf _ _ Ho) as Hlt. cbn in Hlt.
  assert (Hleak : leaked w' (bridge_instance old)).
  { split; [|split]; cbn.
    - rewrite lookup_insert_ne by lia. eauto.
    - intros k c [[<- <-]|[Hne Hc]]%lookup_insert_Some; cbn; [lia|].
      intros E. by apply Hne, (wf_distinct w Hwf _ _ Hold _ _ Hc).
    - lia. }
  cbn. rewrite !lookup_insert_eq. split_and!; try done.
  - apply dom_insert_lookup_L. eauto.
  - lia.
  - by case_decide.
  - intros s w'' e' Hrun.
    destruct Hleak as [Hlive Hun].
    destruct (unheld_forever s w' _ [] w'' e' Hwf' Hun Hrun) as (e2 & -> & _ & ? & Hg & ?).
    split; [|done]. split; [by rewrite Hg|done].
Qed.

(** Connection 42 is registered already, with object 7; object 8 now
    registers for it. *)
Lemma reregister_overwrites_and_leaks_witness :
  ∃ rc w' e, run calm_host 1%nat (nativeRegisterCallback 8%nat 42) registered_world
             = Some (rc, w', e) ∧
    g_callbacks w' !! to_uint64 42 = Some (mkContext (Some 1%nat) 1%nat) ∧
    dom (g_callbacks w') = dom (g_callbacks registered_world) ∧
    globals w' !! 1%nat = Some 8%nat ∧
    1%nat ≠ 0%nat ∧
    releases 0%nat e = 0%nat ∧
    leaked w' 0%nat ∧
    ∀ s w'' e', run_calls s w' [] = Some (w'', e') →
                leaked w'' 0%nat ∧ releases 0%nat e' = 0%nat.
Proof.
  apply (reregister_overwrites_and_leaks calm_host 1%nat registered_world 8%nat 42
           (mkContext (Some 1%nat) 0%nat)).
  - apply wf_decide. vm_compute. reflexivity.
  - reflexivity.
Defined.

(** C8, as amended: an entry of the registry goes away, and its global
    reference is released, exactly when nativeUnregisterCallback or
    nativeDisconnect is called for its id or nativeShutdown is called.  A
    call of nativeRegisterCallback for its id puts another entry in its
    place and releases nothing.  Every other call, the callback included,
    leaves the entry as it is and its reference live and unreleased. *)
Theorem entry_destroyed_only_by_unregister_disconnect_shutdown h t c w k ctx :
  wf w →
  g_callbacks w !! k = Some ctx →
  ∃ w' e, run h t (body c) w = Some (tt, w', e) ∧
    (destroys c k →
       g_callbacks w' !! k = None ∧
       globals w' !! bridge_instance ctx = None ∧
       In (EDeleteGlobalRef (bridge_instance ctx)) e) ∧
    (¬ destroys c k →
       is_Some (g_callbacks w' !! k) ∧
       (¬ replaces c k → g_callbacks w' !! k = Some ctx) ∧
       globals w' !! bridge_instance ctx = globals w !! bridge_instance ctx ∧
       releases (bridge_instance ctx) e = 0%nat).
Proof.
  intros Hwf Hk. pose proof (wf_mutex w Hwf) as Hl.
  destruct (wf_step h t c w Hwf) as (w' & e & Hrun & Hwf').
  exists w', e. split; [done|]. split.
  - revert Hrun. destruct c; try done; cbn [body destroys]; rewrite ?run_ignore.
    + rewrite shutdown_spec by done. intros [= <- <-] _. cbn.
      assert ((k, ctx) ∈ entries (g_callbacks w)) as Hin by by apply elem_of_entries.
      split_and!; [done | by apply (without_refs_lookup_in _ _ (k, ctx)) |].
      right. apply in_or_app. left.
      apply (in_map (λ entry, EDeleteGlobalRef (bridge_instance entry.2)) _ (k, ctx)).
      by apply list_elem_of_In.
    + rewrite disconnect_spec by done. intros [= <- <-] ->. rewrite Hk. cbn.
      rewrite !lookup_delete_eq. tauto.
    + rewrite unregister_spec by done. intros [= <- <-] ->. rewrite Hk. cbn.
      rewrite !lookup_delete_eq. tauto.
  - intros Hnd.
    destruct (wf_entries w Hwf _ _ Hk) as [_ [o Ho]].
    pose proof (wf_fresh w Hwf _ _ Ho) as Hlt. cbn in Hlt.
    destruct (reference_kept h t c w (bridge_instance ctx) Hwf Hlt)
      as (w2 & e2 & Hrun2 & _ & _ & Hg & Hrel).
    { intros k' ctx' Hk' E. by rewrite <- (wf_distinct w Hwf _ _ Hk _ _ Hk'). }
    rewrite Hrun in Hrun2. injection Hrun2 as <- <-.
    rewrite (registry_step h t c w w' e Hwf Hrun).
    split_and!; try done.
    + destruct c; cbn [registry_after destroys] in *; try tauto; eauto;
        try (rewrite lookup_delete_ne by done; eauto).
      destruct (decide (to_uint64 connectionId = k)) as [->|].
      * rewrite lookup_insert_eq. eauto.
      * rewrite lookup_insert_ne by done. eauto.
    + intros Hnr. destruct c; cbn [registry_after destroys replaces] in *;
        try tauto; try done.
      * by rewrite lookup_delete_ne.
      * by rewrite lookup_insert_ne.
      * by rewrite lookup_delete_ne.
Qed.

Lemma entry_destroyed_only_by_unregister_disconnect_shutdown_witness :
  ∃ w' e, run calm_host 1%nat (body (CallSendCot 42 (Some (JavaString "<event/>"))))
            registered_world = Some (tt, w', e) ∧
    (destroys (CallSendCot 42 (Some (JavaString "<event/>"))) 42 →
       g_callbacks w' !! 42 = None ∧
       globals w' !! 0%nat = None ∧
       In (EDeleteGlobalRef 0%nat) e) ∧
    (¬ destroys (CallSendCot 42 (Some (JavaString "<event/>"))) 42 →
       is_Some (g_callbacks w' !! 42) ∧
       (¬ replaces (CallSendCot 42 (Some (JavaString "<event/>"))) 42 →
        g_callbacks w' !! 42 = Some (mkContext (Some 1%nat) 0%nat)) ∧
       globals w' !! 0%nat = globals registered_world !! 0%nat ∧
       releases 0%nat e = 0%nat).
Proof.
  apply (entry_destroyed_only_by_unregister_disconnect_shutdown calm_host 1%nat
           (CallSendCot 42 (Some (JavaString "<event/>"))) registered_world 42
           (mkContext (Some 1%nat) 0%nat)).
  - apply wf_decide. vm_compute. reflexivity.
  - reflexivity.
Defined.

(** C8, as stated, fails: nativeDisconnect is neither unregister_callback
    nor shutdown, yet called for connection 42 it removes the entry of 42
    and releases its global reference. *)
Lemma disconnect_destroys_entry :
  g_callbacks registered_world !! 42 = Some (mkContext (Some 1%nat) 0%nat) ∧
  ∃ w' e, run calm_host 1%nat (nativeDisconnect 42) registered_world = Some (0, w', e) ∧
          g_callbacks w' !! 42 = None ∧
          globals w' !! 0%nat = None ∧
          releases 0%nat e = 1%nat.
Proof.
  split; [reflexivity|].
  eexists _, _. split; [vm_compute; reflexivity|]. by vm_compute.
Qed.

(** ** The mutex *)

(** The lock discipline of a sequence follows from that of its parts. *)
Lemma disciplined_bind {A B} (p : prog A) (f : A → prog B) held mid final :
  disciplined held p mid →
  (∀ x, disciplined mid (f x) final) →
  disciplined held (bind p f) final.
Proof.
  revert held. induction p as [x|a k IH]; intros held; cbn.
  - intros ->. auto.
  - intros [Hp Hk] Hf. split; [done|]. intros r. by apply IH.
Qed.

Lemma disciplined_delete_global_refs l : disciplined true (delete_global_refs l) true.
Proof. induction l; cbn; auto. Qed.

Ltac discipline :=
  repeat (cbn;
    match goal with
    | |- _ ∧ _ => split
    | |- ∀ _, _ => intro
    | |- _ = _ => reflexivity
    | |- disciplined _ (delete_global_refs _) _ => apply disciplined_delete_global_refs
    | |- disciplined _ (bind _ _) _ => eapply disciplined_bind
    | |- disciplined _ (match ?x with _ => _ end) _ => destruct x
    | |- context [decide ?P] => destruct (decide P)
    end).

(** Every entry point follows the lock discipline, from free mutex to free mutex. *)
Lemma disciplined_body c : disciplined false (body c) false.
Proof.
  destruct c; unfold body, ignore.
  - unfold JNI_OnLoad. discipline.
  - unfold nativeInit. discipline.
  - unfold nativeShutdown. discipline.
  - unfold nativeConnect, pem_to_cstring, jstring_to_string. discipline.
  - unfold nativeDisconnect. discipline.
  - unfold nativeSendCot, jstring_to_string. discipline.
  - unfold nativeRegisterCallback. discipline.
  - unfold nativeUnregisterCallback. discipline.
  - unfold nativeGetStatus. discipline.
  - unfold nativeVersion, string_to_jstring. discipline.
  - unfold cot_callback_bridge, cot_callback_bridge_invoke, string_to_jstring. discipline.
Qed.

(** Only the two mutex operations change who holds the mutex, and each
    can only be performed in the state it expects. *)
Lemma exec_mutex h t a w r w' e :
  exec h t a w = Some (r, w', e) →
  match a with
  | MutexLock => g_callbacks_mutex w = None ∧ g_callbacks_mutex w' = Some t
  | MutexUnlock => g_callbacks_mutex w = Some t ∧ g_callbacks_mutex w' = None
  | _ => g_callbacks_mutex w' = g_callbacks_mutex w
  end.
Proof.
  destruct a; cbn; intros H; repeat (case_match || case_decide); simplify_eq; done.
Qed.

(** The invariant survives every step of every thread. *)
Lemma lock_inv_step cfg cfg' : lock_inv cfg → cstep cfg cfg' → lock_inv cfg'.
Proof.
  intros [Hdisc Hheld] Hstep.
  destruct Hstep as [w P t c Hfree | w P t a k h r w' e Hat Hexec | w P t Hret];
    unfold lock_inv; cbn [fst snd] in *.
  - split.
    + intros t' p [[<- <-]|[Hne Hp]]%lookup_insert_Some; [|by apply Hdisc].
      rewrite bool_decide_eq_false_2; [apply disciplined_body|].
      intros Hm. destruct (Hheld _ Hm) as [? ?]. congruence.
    + intros t' Hm. destruct (decide (t = t')) as [<-|Hne].
      * rewrite lookup_insert_eq. eauto.
      * rewrite lookup_insert_ne by done. auto.
  - pose proof (Hdisc t _ Hat) as [Hperm Hk]. cbn in Hperm, Hk.
    pose proof (exec_mutex h t a w r w' e Hexec) as Hmutex.
    split.
    + intros t' p [[<- <-]|[Hne Hp]]%lookup_insert_Some.
      * specialize (Hk r).
        destruct a; cbn in Hperm, Hk, Hmutex |- *;
          try (by rewrite Hmutex); destruct Hmutex as [H1 H2]; rewrite H2;
          [by rewrite bool_decide_eq_true_2 | by rewrite bool_decide_eq_false_2].
      * specialize (Hdisc t' p Hp).
        destruct a; cbn in Hmutex; try (by rewrite Hmutex);
          destruct Hmutex as [H1 H2]; rewrite H1 in Hdisc; rewrite H2.
        -- rewrite bool_decide_eq_false_2 in Hdisc by done.
           rewrite bool_decide_eq_false_2 by congruence. done.
        -- rewrite bool_decide_eq_false_2 in Hdisc by congruence.
           rewrite bool_decide_eq_false_2 by done. done.
    + intros t' Hm. destruct (decide (t = t')) as [<-|Hne].
      * rewrite lookup_insert_eq. eauto.
      * rewrite lookup_insert_ne by done. apply Hheld.
        destruct a; cbn in Hmutex; try (by rewrite <- Hmutex);
          destruct Hmutex as [H1 H2]; congruence.
  - pose proof (Hdisc t _ Hret) as Hd. cbn in Hd.
    apply bool_decide_eq_false in Hd.
    split.
    + intros t' p [Hne Hp]%lookup_delete_Some. by apply Hdisc.
    + intros t' Hm. rewrite lookup_delete_ne by congruence. auto.
Qed.

Lemma lock_inv_rtc cfg cfg' : rtc cstep cfg cfg' → lock_inv cfg → lock_inv cfg'.
Proof. induction 1; eauto using lock_inv_step. Qed.

Lemma lock_inv_reachable w0 cfg :
  g_callbacks_mutex w0 = None → rtc cstep (w0, ∅) cfg → lock_inv cfg.
Proof.
  intros H0 Hrtc. apply (lock_inv_rtc _ _ Hrtc).
  split; cbn; [by intros t p Hp|]. intros t Hm. congruence.
Qed.

(** C9: however the threads interleave, a thread about to read or change
    the registry holds the mutex, so no two threads are ever at the registry
    together; and a thread about to attach, detach, invoke the callback, or
    do any other of the runtime work of a dispatch does not hold it. *)
Theorem registry_serialized_by_mutex w0 w (P : pool) t a k :
  g_callbacks_mutex w0 = None →
  rtc cstep (w0, ∅) (w, P) →
  P !! t = Some (Do a k) →
  (touches_registry a = true → g_callbacks_mutex w = Some t) ∧
  (crosses_runtime a = true → g_callbacks_mutex w ≠ Some t) ∧
  (∀ t' a' k', P !! t' = Some (Do a' k') →
     touches_registry a = true → touches_registry a' = true → t' = t).
Proof.
  intros H0 Hrtc Hat.
  destruct (lock_inv_reachable w0 (w, P) H0 Hrtc) as [Hdisc _]. cbn in Hdisc.
  assert (∀ t a k, P !! t = Some (Do a k) → touches_registry a = true →
                   g_callbacks_mutex w = Some t) as Htouch.
  { intros t1 a1 k1 H1 Ht. destruct (Hdisc _ _ H1) as [Hperm _].
    destruct a1; try discriminate; cbn in Hperm;
      rewrite andb_true_r in Hperm; by apply bool_decide_eq_true in Hperm. }
  split_and!.
  - by apply (Htouch t a k).
  - intros Hc. destruct (Hdisc _ _ Hat) as [Hperm _].
    destruct a; try discriminate; cbn in Hperm;
      apply negb_true_iff, bool_decide_eq_false in Hperm; done.
  - intros t' a' k' Hat' Ht Ht'.
    pose proof (Htouch _ _ _ Hat Ht). pose proof (Htouch _ _ _ Hat' Ht'). congruence.
Qed.

Ltac enter_log_lock :=
  eapply rtc_l;
    [apply (cstep_enter _ _ 2%nat (CallCotCallback 42 (Some "hello"%string)));
     reflexivity|];
  eapply rtc_l;
    [eapply (cstep_exec _ _ 2%nat _ _ calm_host); [apply lookup_insert_eq|reflexivity]|];
  eapply rtc_l;
    [eapply (cstep_exec _ _ 2%nat _ _ calm_host); [apply lookup_insert_eq|reflexivity]|];
  apply rtc_refl.

(** Thread 2 has entered the callback for connection 42, logged, and taken
    the mutex: it is about to look the connection up. *)
Lemma registry_serialized_by_mutex_witness :
  ∃ w (P : pool) k,
    rtc cstep (registered_world, ∅) (w, P) ∧
    P !! 2%nat = Some (Do (MapFind 42) k) ∧
    (touches_registry (MapFind 42) = true → g_callbacks_mutex w = Some 2%nat) ∧
    (crosses_runtime (MapFind 42) = true → g_callbacks_mutex w ≠ Some 2%nat) ∧
    (∀ t' a' k', P !! t' = Some (Do a' k') →
       touches_registry (MapFind 42) = true → touches_registry a' = true → t' = 2%nat).
Proof.
  eexists _, _, _. split; [enter_log_lock|]. split; [apply lookup_insert_eq|].
  eapply (registry_serialized_by_mutex registered_world _ _ 2%nat (MapFind 42)).
  - reflexivity.
  - enter_log_lock.
  - apply lookup_insert_eq.
Defined.

(** * The rest of the bridge *)

(** ** Strings *)


(** ** Local references and buffers *)

Lemma run_holding_bind {A B} h t (p : prog A) (f : A → prog B) w held :
  run_holding h t (bind p f) w held =
  match run_holding h t p w held with
  | Some (x, w1, held1) => run_holding h t (f x) w1 held1
  | None => None
  end.
Proof.
  revert w held. induction p as [x|a k IH]; intros w held; cbn; [done|].
  destruct (exec h t a w) as [[[r w1] e1]|]; [|done].
  destruct (holding a r held) as [held1|]; [apply IH|done].
Qed.

Ltac hold_step :=
  cbn [run_holding exec bind act result LOGI LOGE LOGD holding give_back
       fmap option_fmap option_map
       g_callbacks g_callbacks_mutex g_jvm attached pending globals next_global
       set_callbacks set_mutex set_g_jvm set_attached set_pending set_globals
       jvm bridge_instance string_to_jstring jstring_to_string];
  rewrite ?decide_True by done.

Lemma run_holding_jstring_to_string h t (s : jstring) w held :
  run_holding h t (jstring_to_string s) w held =
  Some (match s with Some j => utf_chars j | None => ""%string end, w, held).
Proof. destruct s; hold_step; done. Qed.

Lemma run_holding_pem_to_cstring h t (s : jstring) w held :
  run_holding h t (pem_to_cstring s) w held = Some (utf_chars <$> s, w, held).
Proof.
  unfold pem_to_cstring.
  destruct s; [rewrite run_holding_bind, run_holding_jstring_to_string|]; done.
Qed.

Lemma run_holding_delete_global_refs h t l w held :
  ∃ w', run_holding h t (delete_global_refs l) w held = Some (tt, w', held) ∧
        g_callbacks_mutex w' = g_callbacks_mutex w.
Proof.
  revert w. induction l as [|entry l IH]; intros w; [by eexists|].
  cbn [delete_global_refs]. hold_step. destruct (IH (set_globals (delete (bridge_instance entry.2) (globals w))
                             (next_global w) w)) as (w' & Hr & Hm).
  exists w'. by rewrite Hr, Hm.
Qed.

Lemma run_holding_invoke h t w ctx vm T (nd : bool) id xml held :
  jvm ctx = Some vm → globals w !! bridge_instance ctx = Some T → t ∈ attached w →
  ∃ w', run_holding h t (cot_callback_bridge_invoke ctx nd id xml) w held
        = Some (tt, w', held).
Proof.
  intros Hv Hg Ht. unfold cot_callback_bridge_invoke. hold_step.
  rewrite Hg, Hv. hold_step.
  destruct (h_method h (h_class_of h T) _ _) as [m|]; hold_step.
  - destruct xml as [s|]; hold_step; rewrite Hg; hold_step.
    all: destruct (h_throws _ _ _ _ _); hold_step.
    all: case_bool_decide; hold_step.
    all: try (rewrite decide_False by done; hold_step).
    all: destruct nd; hold_step; rewrite ?decide_True by (set_unfold; tauto); hold_step.
    all: by eexists.
  - destruct nd; hold_step; rewrite ?decide_True by (set_unfold; tauto); hold_step.
    all: by eexists.
Qed.

(** X2: no entry point leaks what the VM lent it.  From a well-formed
    state and whatever the host does, every call except [nativeVersion]
    returns having given back each local reference it was handed and each
    UTF buffer it pinned, and having given back nothing it did not hold;
    [nativeVersion] returns holding exactly one local reference, the
    string it returns (none when the core has no version string). *)
Theorem nothing_held_on_return h t c w :
  wf w →
  (is_version c = false →
   ∃ w', run_holding h t (body c) w [] = Some (tt, w', [])) ∧
  (∃ w', run_holding h t nativeVersion w [] =
         Some (to_java (h_version h), w',
               match h_version h with
               | Some _ => [LocalRef (LocalString (to_java (h_version h)))]
               | None => []
               end)).
Proof.
  intros Hwf. pose proof (wf_mutex w Hwf) as Hl. split.
  - intros Hv. destruct c; try discriminate; unfold body, ignore.
    + unfold JNI_OnLoad. hold_step. by eexists.
    + unfold nativeInit. hold_step. by eexists.
    + unfold nativeShutdown. hold_step. rewrite Hl. hold_step.
      rewrite run_holding_bind.
      destruct (run_holding_delete_global_refs h t (entries (g_callbacks w))
                  (set_mutex (Some t) w) []) as (w' & -> & Hm).
      hold_step. by eexists.
    + unfold nativeConnect. hold_step. rewrite run_holding_bind.
      rewrite run_holding_bind, run_holding_jstring_to_string.
      rewrite run_holding_bind, run_holding_pem_to_cstring.
      rewrite run_holding_bind, run_holding_pem_to_cstring.
      rewrite run_holding_bind, run_holding_pem_to_cstring.
      hold_step. case_decide; hold_step; by eexists.
    + unfold nativeDisconnect. hold_step. rewrite Hl. hold_step.
      destruct (g_callbacks w !! _) as [ctx|]; hold_step; by eexists.
    + unfold nativeSendCot. rewrite !run_holding_bind, run_holding_jstring_to_string.
      hold_step. case_decide; hold_step; by eexists.
    + unfold nativeRegisterCallback. hold_step. rewrite Hl. hold_step.
      case_decide; hold_step; by eexists.
    + unfold nativeUnregisterCallback. hold_step. rewrite Hl. hold_step.
      destruct (g_callbacks w !! _) as [ctx|]; hold_step; by eexists.
    + unfold nativeGetStatus. hold_step.
      destruct (h_status h _) as [rc st]. case_decide; hold_step; [by eexists|].
      destruct (h_find_class h _) as [cls|]; hold_step; [|by eexists].
      destruct (h_method h _ _ _) as [ctor|]; hold_step; by eexists.
    + unfold cot_callback_bridge. hold_step. rewrite Hl. hold_step.
      destruct (g_callbacks w !! connection_id) as [ctx|] eqn:E; hold_step; [|by eexists].
      destruct (wf_entries w Hwf _ _ E) as [[vm Hvm] [T HT]]. rewrite Hvm. hold_step.
      rewrite (set_mutex_restore w t Hl).
      destruct (decide (t ∈ attached w)).
      * destruct (h_version_ok h); hold_step; repeat (case_decide; try done); hold_step;
          [|by eexists].
        by apply (run_holding_invoke h t w ctx vm T false).
      * case_decide; [|done]. hold_step. rewrite decide_False by done.
        case_decide as Hok; hold_step.
        -- case_decide; [done|].
           apply (run_holding_invoke h t _ ctx vm T true); try done.
           cbn. set_unfold. tauto.
        -- by eexists.
  - unfold nativeVersion. hold_step. destruct (h_version h); hold_step; by eexists.
Qed.

Lemma nothing_held_on_return_witness :
  (is_version (CallCotCallback 42 (Some "hello"%string)) = false →
   ∃ w', run_holding calm_host 2%nat (body (CallCotCallback 42 (Some "hello"%string)))
           registered_world [] = Some (tt, w', [])) ∧
  (∃ w', run_holding calm_host 2%nat nativeVersion registered_world [] =
         Some (to_java (h_version calm_host), w',
               match h_version calm_host with
               | Some _ => [LocalRef (LocalString (to_java (h_version calm_host)))]
               | None => []
               end)).
Proof.
  apply (nothing_held_on_return calm_host 2%nat (CallCotCallback 42 (Some "hello"%string))
           registered_world).
  apply wf_decide. vm_compute. reflexivity.
Defined.

(** ** Connections and their ids *)

(** X3: what [nativeConnect] hands to the native core.  It makes exactly
    one call, [omnitak_connect], and returns its value as a [jlong]
    without touching the state.  The host is the content of the Java
    string (empty for null); the port is the [jint] cut to 16 bits, so
    the port itself when it is below 65536; the TLS flag is 0 or 1; the
    protocol is passed on unchanged; and each PEM pointer is null exactly
    when the Java string is.  (What the core reads through a PEM pointer
    that is not null is not part of the statement: the pointers are taken
    from temporaries.) *)
Theorem connect_arguments h t w host port protocol useTls certPem keyPem caPem :
  ∃ hostStr port16 tls cert key ca e,
    let c := omnitak_connect hostStr port16 protocol tls cert key ca in
    run h t (nativeConnect host port protocol useTls certPem keyPem caPem) w
      = Some (to_jlong (h_core h c), w, e) ∧
    List.filter (λ ev, negb (is_log ev)) e = [ECore c] ∧
    0 <= port16 < 65536 ∧ (port16 - port) mod 65536 = 0 ∧
    (0 <= port < 65536 → port16 = port) ∧
    tls = (if decide (useTls = 0) then 0 else 1) ∧
    hostStr = default ""%string (utf_chars <$> host) ∧
    (cert = None ↔ certPem = None) ∧ (key = None ↔ keyPem = None) ∧
    (ca = None ↔ caPem = None).
Proof.
  set (c := omnitak_connect (default ""%string (utf_chars <$> host)) (to_uint16 port) protocol
              (if decide (useTls = 0) then 0 else 1)
              (utf_chars <$> certPem) (utf_chars <$> keyPem) (utf_chars <$> caPem)).
  assert (Hp : 0 <= to_uint16 port < 65536) by (unfold to_uint16; apply Z.mod_pos_bound; lia).
  assert (∃ e, run h t (nativeConnect host port protocol useTls certPem keyPem caPem) w
               = Some (to_jlong (h_core h c), w, e) ∧
               List.filter (λ ev, negb (is_log ev)) e = [ECore c]) as (e & Hrun & He).
  { unfold run, nativeConnect. run_step.
    rewrite run_acc_bind, jstring_to_string_spec.
    do 3 rewrite run_acc_bind, pem_to_cstring_spec.
    run_step.
    replace (omnitak_connect _ _ _ _ _ _ _) with c
      by (unfold c; destruct host; repeat case_decide; done).
    case_decide; run_step; by eexists. }
  exists (default ""%string (utf_chars <$> host)), (to_uint16 port),
         (if decide (useTls = 0) then 0 else 1),
         (utf_chars <$> certPem), (utf_chars <$> keyPem), (utf_chars <$> caPem), e.
  cbn zeta. fold c. split_and!; try done; try lia.
  - unfold to_uint16. change (2 ^ 16) with 65536.
    by rewrite Zminus_mod_idemp_l, Z.sub_diag.
  - intros ?. unfold to_uint16. by apply Z.mod_small.
  - by destruct certPem.
  - by destruct keyPem.
  - by destruct caPem.
Qed.

(** X4: the connection id survives the trip through Kotlin.  For an id in
    the range of [uint64_t], the [jlong] that [nativeConnect] returns is 0
    exactly when the core returned 0, "Connection failed" is logged exactly
    then, and [nativeSendCot], [nativeRegisterCallback] and
    [nativeDisconnect] called with that [jlong] address the core, and the
    registry, with the id the core had returned. *)
Theorem connection_id_round_trip h t w host port protocol useTls certPem keyPem caPem :
  ∃ c e, let rc := h_core h c in
    run h t (nativeConnect host port protocol useTls certPem keyPem caPem) w
      = Some (to_jlong rc, w, e) ∧
    In (ECore c) e ∧
    (0 <= rc < 2 ^ 64 →
       (to_jlong rc = 0 ↔ rc = 0) ∧
       (In (ELog ANDROID_LOG_ERROR "Connection failed") e ↔ rc = 0) ∧
       ∀ h2 t2 w2 cotXml,
         g_callbacks_mutex w2 = None →
         (∃ r2 w3 e2, run h2 t2 (nativeSendCot (to_jlong rc) cotXml) w2 = Some (r2, w3, e2) ∧
                      ∃ xml, In (ECore (omnitak_send_cot rc xml)) e2) ∧
         (∃ r2 w3 e2, run h2 t2 (nativeRegisterCallback 0%nat (to_jlong rc)) w2
                        = Some (r2, w3, e2) ∧
                      In (ECore (omnitak_register_callback rc)) e2 ∧
                      is_Some (g_callbacks w3 !! rc)) ∧
         (∃ r2 w3 e2, run h2 t2 (nativeDisconnect (to_jlong rc)) w2 = Some (r2, w3, e2) ∧
                      In (ECore (omnitak_disconnect rc)) e2)).
Proof.
  set (c := omnitak_connect (default ""%string (utf_chars <$> host)) (to_uint16 port) protocol
              (if decide (useTls = 0) then 0 else 1)
              (utf_chars <$> certPem) (utf_chars <$> keyPem) (utf_chars <$> caPem)).
  exists c.
  assert (∃ e, run h t (nativeConnect host port protocol useTls certPem keyPem caPem) w
               = Some (to_jlong (h_core h c), w, e) ∧
               In (ECore c) e ∧
               (In (ELog ANDROID_LOG_ERROR "Connection failed") e ↔ ¬ h_core h c > 0))
    as (e & Hrun & Hc & Hlog).
  { unfold run, nativeConnect. run_step.
    rewrite run_acc_bind, jstring_to_string_spec.
    do 3 rewrite run_acc_bind, pem_to_cstring_spec.
    run_step.
    replace (omnitak_connect _ _ _ _ _ _ _) with c
      by (unfold c; destruct host; repeat case_decide; done).
    case_decide; run_step; eexists; (split; [reflexivity|]); cbn; (split; [tauto|]).
    + split; [|done]. intros [?|[?|[?|[?|[]]]]]; discriminate.
    + split; [done|]. tauto. }
  exists e. cbn zeta. split_and!; try done. intros Hrc.
  assert (Hback : to_uint64 (to_jlong (h_core h c)) = h_core h c)
    by by apply to_uint64_to_jlong.
  split_and!.
  - split; [|by intros ->]. intros H0. rewrite <- Hback, H0. done.
  - rewrite Hlog. lia.
  - intros h2 t2 w2 cotXml Hl. split_and!.
    + unfold run, nativeSendCot. rewrite run_acc_bind, jstring_to_string_spec. run_step.
      rewrite Hback. case_decide; run_step; eexists _, _, _; (split; [reflexivity|]);
        eexists; cbn; tauto.
    + rewrite register_spec by done. rewrite Hback. eexists _, _, _. split; [reflexivity|].
      cbn. rewrite lookup_insert_eq. split; [tauto|eauto].
    + rewrite disconnect_spec by done. rewrite Hback. eexists _, _, _. split; [reflexivity|].
      cbn. tauto.
Qed.

(** X5: a registration makes the callback reachable under the id the core
    will use.  After [nativeRegisterCallback] for the [jlong] [c] in a
    well-formed state, the registry has the target under [(uint64_t)c],
    the core was told the same id, and a dispatch the core makes for that
    id (on a thread that gets into the VM, the method being found) invokes
    the target with [c] itself, negative or not. *)
Theorem registered_id_reaches_callback h t w thiz c :
  wf w →
  - 2 ^ 63 <= c < 2 ^ 63 →
  ∃ rc w1 e1, run h t (nativeRegisterCallback thiz c) w = Some (rc, w1, e1) ∧
    registered w1 (to_uint64 c) thiz ∧
    In (ECore (omnitak_register_callback (to_uint64 c))) e1 ∧
    ∀ h2 t2 xml m,
      enters h2 t2 w1 = true →
      onCotReceived_of h2 thiz = Some m →
      ∃ w2 e2, run h2 t2 (cot_callback_bridge (to_uint64 c) xml) w1 = Some (tt, w2, e2) ∧
               invocations e2 = [EInvoke t2 thiz m c (to_java xml)].
Proof.
  intros Hwf Hc. pose proof (wf_mutex w Hwf) as Hl. destruct (wf_loaded w Hwf) as [vm Hvm].
  rewrite register_spec by done. eexists _, _, _. split; [reflexivity|].
  set (w1 := set_callbacks _ _).
  assert (Hreg : registered w1 (to_uint64 c) thiz).
  { eexists. cbn. rewrite lookup_insert_eq. split; [done|]. cbn.
    rewrite lookup_insert_eq, Hvm. eauto. }
  split_and!; [done | cbn; tauto |].
  intros h2 t2 xml m Hent Hm.
  destruct (registered_hit h2 t2 w1 (to_uint64 c) thiz xml) as (w2 & e2 & Hr & _ & _ & _ & _ & Hi & _);
    [done..|].
  exists w2, e2. split; [done|]. rewrite Hi. unfold delivery.
  by rewrite Hent, Hm, to_jlong_to_uint64.
Qed.

Lemma registered_id_reaches_callback_witness :
  ∃ rc w1 e1,
    run calm_host 1%nat (nativeRegisterCallback 7%nat (-1)) registered_world
      = Some (rc, w1, e1) ∧
    registered w1 (to_uint64 (-1)) 7%nat ∧
    In (ECore (omnitak_register_callback (to_uint64 (-1)))) e1 ∧
    ∀ h2 t2 xml m,
      enters h2 t2 w1 = true →
      onCotReceived_of h2 7%nat = Some m →
      ∃ w2 e2, run h2 t2 (cot_callback_bridge (to_uint64 (-1)) xml) w1 = Some (tt, w2, e2) ∧
               invocations e2 = [EInvoke t2 7%nat m (-1) (to_java xml)].
Proof.
  apply (registered_id_reaches_callback calm_host 1%nat registered_world 7%nat (-1)).
  - apply wf_decide. vm_compute. reflexivity.
  - lia.
Defined.

(** X6: tearing down an id that has no entry is harmless.
    [nativeUnregisterCallback] and [nativeDisconnect] still call the core
    and return its status, and leave the whole state as it was: nothing is
    erased and no global reference is released. *)
Theorem teardown_of_unregistered_id h t w id :
  g_callbacks_mutex w = None →
  g_callbacks w !! to_uint64 id = None →
  (∃ e, run h t (nativeUnregisterCallback id) w
        = Some (h_core h (omnitak_unregister_callback (to_uint64 id)), w, e) ∧
        ∀ r, releases r e = 0%nat) ∧
  (∃ e, run h t (nativeDisconnect id) w
        = Some (h_core h (omnitak_disconnect (to_uint64 id)), w, e) ∧
        ∀ r, releases r e = 0%nat).
Proof.
  intros Hl Hk. rewrite unregister_spec, disconnect_spec by done. rewrite Hk.
  split; by eexists.
Qed.

Lemma teardown_of_unregistered_id_witness :
  (∃ e, run failing_core_host 1%nat (nativeUnregisterCallback 43) registered_world
        = Some (h_core failing_core_host (omnitak_unregister_callback (to_uint64 43)),
                registered_world, e) ∧
        ∀ r, releases r e = 0%nat) ∧
  (∃ e, run failing_core_host 1%nat (nativeDisconnect 43) registered_world
        = Some (h_core failing_core_host (omnitak_disconnect (to_uint64 43)),
                registered_world, e) ∧
        ∀ r, releases r e = 0%nat).
Proof.
  apply (teardown_of_unregistered_id failing_core_host 1%nat registered_world 43).
  - reflexivity.
  - vm_compute. reflexivity.
Defined.

(** X7: [nativeDisconnect] cleans up whatever the core answers.  The core
    is called first, with only logging before it, and its status is
    returned; after the call the entry of the id is gone, its global
    reference has been released exactly once, and every other entry is
    as it was. *)
Theorem disconnect_cleans_up_whatever_core_returns h t w id ctx :
  g_callbacks_mutex w = None →
  g_callbacks w !! to_uint64 id = Some ctx →
  ∃ w' before after,
    run h t (nativeDisconnect id) w
      = Some (h_core h (omnitak_disconnect (to_uint64 id)), w',
              before ++ ECore (omnitak_disconnect (to_uint64 id)) :: after) ∧
    forallb is_log before = true ∧
    releases (bridge_instance ctx) after = 1%nat ∧
    g_callbacks w' !! to_uint64 id = None ∧
    globals w' !! bridge_instance ctx = None ∧
    (∀ k, k ≠ to_uint64 id → g_callbacks w' !! k = g_callbacks w !! k).
Proof.
  intros Hl Hk. rewrite disconnect_spec by done. rewrite Hk.
  eexists _, [_], [_; _; _]. split; [reflexivity|]. cbn.
  rewrite !lookup_delete_eq, Nat.eqb_refl. split_and!; try done.
  intros k Hne. by rewrite lookup_delete_ne.
Qed.

Lemma disconnect_cleans_up_whatever_core_returns_witness :
  ∃ w' before after,
    run failing_core_host 1%nat (nativeDisconnect 42) registered_world
      = Some (h_core failing_core_host (omnitak_disconnect (to_uint64 42)), w',
              before ++ ECore (omnitak_disconnect (to_uint64 42)) :: after) ∧
    forallb is_log before = true ∧
    releases (bridge_instance (mkContext (Some 1%nat) 0%nat)) after = 1%nat ∧
    g_callbacks w' !! to_uint64 42 = None ∧
    globals w' !! bridge_instance (mkContext (Some 1%nat) 0%nat) = None ∧
    (∀ k, k ≠ to_uint64 42 → g_callbacks w' !! k = g_callbacks registered_world !! k).
Proof.
  apply (disconnect_cleans_up_whatever_core_returns failing_core_host 1%nat
           registered_world 42 (mkContext (Some 1%nat) 0%nat)).
  - reflexivity.
  - vm_compute. reflexivity.
Defined.

(** X8: the status a native method returns is the core's.  [nativeInit],
    [nativeSendCot], [nativeRegisterCallback], [nativeUnregisterCallback]
    and [nativeDisconnect] each make exactly one call into the core, with
    the id cast to [uint64_t], and return what it returned;
    [nativeSendCot] passes the content of the Java string (empty for
    null) and logs a failure exactly when the core's status is not 0. *)
Theorem status_comes_from_the_core h t w :
  g_callbacks_mutex w = None →
  (∃ w' e, run h t nativeInit w = Some (h_core h omnitak_init, w', e) ∧
           core_calls e = [omnitak_init]) ∧
  (∀ id xml,
     let c := omnitak_send_cot (to_uint64 id) (default ""%string (utf_chars <$> xml)) in
     ∃ w' e, run h t (nativeSendCot id xml) w = Some (h_core h c, w', e) ∧
             core_calls e = [c] ∧
             (In (ELog ANDROID_LOG_ERROR "Failed to send CoT: %d") e ↔ h_core h c ≠ 0)) ∧
  (∀ thiz id,
     let c := omnitak_register_callback (to_uint64 id) in
     ∃ w' e, run h t (nativeRegisterCallback thiz id) w = Some (h_core h c, w', e) ∧
             core_calls e = [c]) ∧
  (∀ id,
     let c := omnitak_unregister_callback (to_uint64 id) in
     ∃ w' e, run h t (nativeUnregisterCallback id) w = Some (h_core h c, w', e) ∧
             core_calls e = [c]) ∧
  (∀ id,
     let c := omnitak_disconnect (to_uint64 id) in
     ∃ w' e, run h t (nativeDisconnect id) w = Some (h_core h c, w', e) ∧
             core_calls e = [c]).
Proof.
  intros Hl. split_and!.
  - unfold run, nativeInit. run_step. by eexists _, _.
  - intros id xml c. unfold run, nativeSendCot.
    rewrite run_acc_bind, jstring_to_string_spec. run_step.
    replace (match xml with Some s => utf_chars s | None => ""%string end)
      with (default ""%string (utf_chars <$> xml)) by by destruct xml.
    fold c. case_decide as Hrc; run_step; eexists _, _; (split; [reflexivity|]); cbn.
    + split; [done|]. split; [done|]. intros _. tauto.
    + split; [done|]. split; [|done]. intros [?|[?|[]]]; discriminate.
  - intros thiz id c. rewrite (register_spec _ _ _ _ _ Hl). cbv zeta. fold c.
    eexists _, _. split; [reflexivity|]. cbn. by case_decide.
  - intros id c. rewrite (unregister_spec _ _ _ _ Hl). cbv zeta. fold c.
    eexists _, _. split; [reflexivity|]. by destruct (g_callbacks w !! _).
  - intros id c. rewrite (disconnect_spec _ _ _ _ Hl). cbv zeta. fold c.
    eexists _, _. split; [reflexivity|]. by destruct (g_callbacks w !! _).
Qed.

Lemma status_comes_from_the_core_witness :
  (∃ w' e, run failing_core_host 1%nat nativeInit registered_world
           = Some (h_core failing_core_host omnitak_init, w', e) ∧
           core_calls e = [omnitak_init]) ∧
  (∀ id xml,
     let c := omnitak_send_cot (to_uint64 id) (default ""%string (utf_chars <$> xml)) in
     ∃ w' e, run failing_core_host 1%nat (nativeSendCot id xml) registered_world
             = Some (h_core failing_core_host c, w', e) ∧
             core_calls e = [c] ∧
             (In (ELog ANDROID_LOG_ERROR "Failed to send CoT: %d") e ↔
              h_core failing_core_host c ≠ 0)) ∧
  (∀ thiz id,
     let c := omnitak_register_callback (to_uint64 id) in
     ∃ w' e, run failing_core_host 1%nat (nativeRegisterCallback thiz id) registered_world
             = Some (h_core failing_core_host c, w', e) ∧
             core_calls e = [c]) ∧
  (∀ id,
     let c := omnitak_unregister_callback (to_uint64 id) in
     ∃ w' e, run failing_core_host 1%nat (nativeUnregisterCallback id) registered_world
             = Some (h_core failing_core_host c, w', e) ∧
             core_calls e = [c]) ∧
  (∀ id,
     let c := omnitak_disconnect (to_uint64 id) in
     ∃ w' e, run failing_core_host 1%nat (nativeDisconnect id) registered_world
             = Some (h_core failing_core_host c, w', e) ∧
             core_calls e = [c]).
Proof.
  apply (status_comes_from_the_core failing_core_host 1%nat registered_world).
  reflexivity.
Defined.

(** ** Accounting of global references *)

Lemma releases_deleted_refs r l :
  releases r (map (λ entry, EDeleteGlobalRef (bridge_instance entry.2)) l)
  = length (List.filter (Nat.eqb r) (held_refs l)).
Proof.
  unfold releases, held_refs. induction l as [|entry l IH]; [done|].
  cbn. destruct (r =? bridge_instance entry.2)%nat; cbn; by rewrite IH.
Qed.

Lemma count_NoDup r (l : list gref) :
  NoDup l → length (List.filter (Nat.eqb r) l) = if decide (r ∈ l) then 1%nat else 0%nat.
Proof.
  induction 1 as [|x l Hx Hl IH]; [done|]. cbn.
  destruct (Nat.eqb_spec r x) as [->|Hne]; cbn; rewrite IH.
  - rewrite decide_False by done. rewrite decide_True by (by left). done.
  - destruct (decide (r ∈ l)).
    + rewrite decide_True by (by right). done.
    + rewrite decide_False; [done|]. by intros [?|?]%elem_of_cons.
Qed.

Lemma held_refs_NoDup w : wf w → NoDup (held_refs (entries (g_callbacks w))).
Proof.
  intros Hwf. unfold held_refs.
  apply (NoDup_fmap_2_strong (λ entry : Z * CallbackContext, bridge_instance entry.2)).
  - intros [k1 c1] [k2 c2] H1%elem_of_entries H2%elem_of_entries E. cbn in E.
    pose proof (wf_distinct w Hwf _ _ H1 _ _ H2 E) as ->. congruence.
  - unfold entries. rewrite merge_sort_Permutation. apply NoDup_map_to_list.
Qed.

Lemma elem_of_held_refs m r :
  r ∈ held_refs (entries m) ↔ ∃ k c, m !! k = Some c ∧ bridge_instance c = r.
Proof.
  unfold held_refs. rewrite list_elem_of_fmap. split.
  - intros ([k c] & -> & Hin%elem_of_entries). eauto.
  - intros (k & c & Hc & <-). exists (k, c). split; [done|]. by apply elem_of_entries.
Qed.

(** What one call releases: each reference at most once, only references
    that were live, which are dead afterwards; a dead reference stays dead;
    references are handed out in increasing order. *)
Lemma call_releases h t c w w' e r :
  wf w → run h t (body c) w = Some (tt, w', e) →
  (releases r e ≤ 1)%nat ∧
  (releases r e = 1%nat → is_Some (globals w !! r) ∧ globals w' !! r = None) ∧
  (globals w !! r = None → (r < next_global w)%nat → globals w' !! r = None) ∧
  (next_global w ≤ next_global w')%nat.
Proof.
  intros Hwf. pose proof (wf_mutex w Hwf) as Hl.
  destruct (passive c) eqn:Hp.
  { destruct (passive_spec h t w c Hp)
      as (w2 & e2 & -> & (_ & _ & _ & Hg & Hn) & _ & Hrel & _).
    intros [= <- <-]. rewrite Hg, Hn, Hrel. split_and!; try done; lia. }
  destruct c; try discriminate; cbn [body]; rewrite ?run_ignore.
  - unfold run, JNI_OnLoad. run_step. intros [= <- <-]. cbn. split_and!; try done; lia.
  - rewrite shutdown_spec by done. intros [= <- <-].
    assert (releases r (ELog ANDROID_LOG_INFO "nativeShutdown called"
              :: map (λ entry, EDeleteGlobalRef (bridge_instance entry.2))
                   (entries (g_callbacks w))
              ++ [EClear; ECoreShutdown; ELog ANDROID_LOG_INFO "Shutdown complete"])
            = if decide (r ∈ held_refs (entries (g_callbacks w))) then 1%nat else 0%nat)
      as ->.
    { change (releases r ([ELog ANDROID_LOG_INFO "nativeShutdown called"]
                ++ (map (λ entry, EDeleteGlobalRef (bridge_instance entry.2))
                      (entries (g_callbacks w))
                    ++ [EClear; ECoreShutdown; ELog ANDROID_LOG_INFO "Shutdown complete"]))
              = if decide (r ∈ held_refs (entries (g_callbacks w))) then 1%nat else 0%nat).
      rewrite !releases_app, releases_deleted_refs.
      rewrite count_NoDup by by apply held_refs_NoDup.
      change (releases r [ELog _ _]) with 0%nat.
      change (releases r [EClear; _; _]) with 0%nat.
      by rewrite Nat.add_0_l, Nat.add_0_r. }
    cbn. split_and!; try done.
    + case_decide; lia.
    + case_decide as Hin; [|done]. intros _.
      apply elem_of_held_refs in Hin as (k & ctx & Hk & <-).
      split; [by destruct (wf_entries w Hwf _ _ Hk)|].
      apply (without_refs_lookup_in _ _ (k, ctx)). by apply elem_of_entries.
    + intros Hdead _.
      destruct (without_refs (entries (g_callbacks w)) (globals w) !! r) eqn:E; [|done].
      apply without_refs_lookup_Some in E. congruence.
  - rewrite disconnect_spec by done. intros [= <- <-].
    destruct (g_callbacks w !! to_uint64 connectionId) as [ctx|] eqn:E; cbn.
    + destruct (Nat.eqb_spec r (bridge_instance ctx)) as [->|Hne]; cbn.
      * rewrite lookup_delete_eq. destruct (wf_entries w Hwf _ _ E). split_and!; try done; lia.
      * rewrite lookup_delete_ne by done. split_and!; try done; lia.
    + split_and!; try done; lia.
  - rewrite register_spec by done. intros [= <- <-]. cbn.
    split_and!; try lia.
    + case_decide; cbn; lia.
    + by case_decide.
    + intros Hdead Hlt. by rewrite lookup_insert_ne by lia.
  - rewrite unregister_spec by done. intros [= <- <-].
    destruct (g_callbacks w !! to_uint64 connectionId) as [ctx|] eqn:E; cbn.
    + destruct (Nat.eqb_spec r (bridge_instance ctx)) as [->|Hne]; cbn.
      * rewrite lookup_delete_eq. destruct (wf_entries w Hwf _ _ E). split_and!; try done; lia.
      * rewrite lookup_delete_ne by done. split_and!; try done; lia.
    + split_and!; try done; lia.
  - destruct (g_callbacks w !! connection_id) as [ctx|] eqn:E.
    + destruct (wf_entries w Hwf _ _ E) as [[vm Hvm] [T HT]].
      destruct (dispatch_hit h t connection_id cot_xml w ctx vm T E Hl Hvm HT)
        as (w2 & e2 & -> & (_ & _ & _ & Hg & Hn) & _ & _ & _ & _ & _ & _ & Hrel).
      intros [= <- <-]. rewrite Hg, Hn, Hrel. split_and!; try done; lia.
    + rewrite dispatch_miss by done. intros [= <- <-]. cbn. split_and!; try done; lia.
Qed.

Lemma accounting s : ∀ w acc,
  wf w →
  ∃ w' e, run_calls s w acc = Some (w', acc ++ e) ∧ wf w' ∧
    (next_global w ≤ next_global w')%nat ∧
    ∀ r, (releases r e ≤ 1)%nat ∧
         (releases r e = 1%nat → globals w' !! r = None) ∧
         (globals w !! r = None → (r < next_global w)%nat →
          releases r e = 0%nat ∧ globals w' !! r = None).
Proof.
  induction s as [|[[h t] c] s IH]; intros w acc Hwf; cbn [run_calls].
  { exists w, []. rewrite app_nil_r. split_and!; try done. intros r. cbn. split_and!; try done; lia. }
  destruct (wf_step h t c w Hwf) as (w1 & e1 & Hrun & Hwf1).
  rewrite run_acc_app, Hrun.
  destruct (IH w1 (acc ++ e1) Hwf1) as (w' & e2 & -> & Hwf' & Hn2 & Hacc).
  exists w', (e1 ++ e2). rewrite app_assoc. split; [done|]. split; [done|].
  assert (Hn1 : (next_global w ≤ next_global w1)%nat)
    by apply (call_releases h t c w w1 e1 0%nat Hwf Hrun).
  split; [lia|]. intros r.
  destruct (call_releases h t c w w1 e1 r Hwf Hrun) as (H1 & H2 & H3 & _).
  destruct (Hacc r) as (I1 & I2 & I3). rewrite releases_app.
  assert (releases r e1 = 1%nat → releases r e2 = 0%nat ∧ globals w' !! r = None) as Hone.
  { intros E. destruct (H2 E) as [[o Ho] Hdead].
    pose proof (wf_fresh w Hwf r o Ho) as Hlt. cbn in Hlt. apply I3; [done|lia]. }
  split_and!.
  - destruct (decide (releases r e1 = 1%nat)) as [E|E]; [destruct (Hone E); lia|lia].
  - intros E. destruct (decide (releases r e1 = 1%nat)) as [E1|E1]; [by destruct (Hone E1)|].
    apply I2. lia.
  - intros Hdead Hlt.
    assert (releases r e1 = 0%nat) as ->.
    { destruct (decide (releases r e1 = 1%nat)) as [E|E]; [|lia].
      destruct (H2 E) as [[o Ho] _]. congruence. }
    destruct (I3 (H3 Hdead Hlt)) as [-> ?]; [lia|done].
Qed.

(** X9: no global reference is released twice.  Over any sequence of
    calls from a well-formed state, on any threads and whatever the VM and
    the core do, the sequence runs to its end, each reference is released
    at most once, a released reference is dead at the end, and a reference
    that was dead at the start is never released again. *)
Theorem no_reference_released_twice s w :
  wf w →
  ∃ w' e, run_calls s w [] = Some (w', e) ∧ wf w' ∧
    ∀ r, (releases r e ≤ 1)%nat ∧
         (releases r e = 1%nat → globals w' !! r = None) ∧
         (globals w !! r = None → (r < next_global w)%nat → releases r e = 0%nat).
Proof.
  intros Hwf. destruct (accounting s w [] Hwf) as (w' & e & Hrun & Hwf' & _ & Hacc).
  exists w', e. split_and!; try done. intros r. destruct (Hacc r) as (? & ? & H3).
  split_and!; try done. intros ? ?. by apply H3.
Qed.

Lemma no_reference_released_twice_witness :
  ∃ w' e,
    run_calls [(calm_host, 1%nat, CallRegisterCallback 7%nat 42);
               (calm_host, 1%nat, CallUnregisterCallback 42);
               (calm_host, 1%nat, CallShutdown)] registered_world [] = Some (w', e) ∧
    wf w' ∧
    ∀ r, (releases r e ≤ 1)%nat ∧
         (releases r e = 1%nat → globals w' !! r = None) ∧
         (globals registered_world !! r = None → (r < next_global registered_world)%nat →
          releases r e = 0%nat).
Proof.
  apply (no_reference_released_twice
           [(calm_host, 1%nat, CallRegisterCallback 7%nat 42);
            (calm_host, 1%nat, CallUnregisterCallback 42);
            (calm_host, 1%nat, CallShutdown)] registered_world).
  apply wf_decide. vm_compute. reflexivity.
Defined.

(** X10: [nativeShutdown] releases the global reference of every entry
    exactly once and empties the registry, all before it shuts the core
    down, after which it only logs; references no entry holds (those
    leaked by a re-registration among them) are not released. *)
Theorem shutdown_releases_every_entry_once h t w :
  wf w →
  ∃ w' before after,
    run h t nativeShutdown w = Some (tt, w', before ++ ECoreShutdown :: after) ∧
    g_callbacks w' = ∅ ∧
    In EClear before ∧ forallb is_log after = true ∧
    (∀ k ctx, g_callbacks w !! k = Some ctx →
       releases (bridge_instance ctx) before = 1%nat ∧
       globals w' !! bridge_instance ctx = None) ∧
    (∀ r, (∀ k ctx, g_callbacks w !! k = Some ctx → bridge_instance ctx ≠ r) →
       releases r before = 0%nat ∧ globals w' !! r = globals w !! r).
Proof.
  intros Hwf. pose proof (wf_mutex w Hwf) as Hl. rewrite shutdown_spec by done.
  set (l := entries (g_callbacks w)).
  eexists _, (ELog ANDROID_LOG_INFO "nativeShutdown called"
              :: map (λ entry, EDeleteGlobalRef (bridge_instance entry.2)) l ++ [EClear]),
             [_].
  split.
  { do 2 f_equal. rewrite <- app_comm_cons, <- app_assoc. reflexivity. }
  cbn [g_callbacks set_callbacks globals set_globals].
  assert (∀ r, releases r (ELog ANDROID_LOG_INFO "nativeShutdown called"
              :: map (λ entry, EDeleteGlobalRef (bridge_instance entry.2)) l ++ [EClear])
            = if decide (r ∈ held_refs l) then 1%nat else 0%nat) as Hcount.
  { intros r.
    change (releases r ([ELog ANDROID_LOG_INFO "nativeShutdown called"]
              ++ (map (λ entry, EDeleteGlobalRef (bridge_instance entry.2)) l ++ [EClear]))
            = if decide (r ∈ held_refs l) then 1%nat else 0%nat).
    rewrite !releases_app, releases_deleted_refs.
    rewrite count_NoDup by by apply held_refs_NoDup.
    change (releases r [ELog _ _]) with 0%nat. change (releases r [EClear]) with 0%nat.
    by rewrite Nat.add_0_l, Nat.add_0_r. }
  split_and!; try done.
  - right. apply in_or_app. right. by left.
  - intros k ctx Hk. rewrite Hcount.
    rewrite decide_True by (apply elem_of_held_refs; eauto). split; [done|].
    apply (without_refs_lookup_in _ _ (k, ctx)). by apply elem_of_entries.
  - intros r Hno. rewrite Hcount.
    rewrite decide_False by (intros (k & ctx & Hk & E)%elem_of_held_refs; by apply (Hno k ctx)).
    split; [done|]. apply without_refs_lookup_ne.
    apply Forall_forall. intros [k ctx] Hin%elem_of_entries. by apply (Hno k ctx).
Qed.

Lemma shutdown_releases_every_entry_once_witness :
  ∃ w' before after,
    run calm_host 1%nat nativeShutdown registered_world
      = Some (tt, w', before ++ ECoreShutdown :: after) ∧
    g_callbacks w' = ∅ ∧
    In EClear before ∧ forallb is_log after = true ∧
    (∀ k ctx, g_callbacks registered_world !! k = Some ctx →
       releases (bridge_instance ctx) before = 1%nat ∧
       globals w' !! bridge_instance ctx = None) ∧
    (∀ r, (∀ k ctx, g_callbacks registered_world !! k = Some ctx → bridge_instance ctx ≠ r) →
       releases r before = 0%nat ∧ globals w' !! r = globals registered_world !! r).
Proof.
  apply (shutdown_releases_every_entry_once calm_host 1%nat registered_world).
  apply wf_decide. vm_compute. reflexivity.
Defined.

(** ** Failures inside the VM *)

(** X11: a dispatch whose target has no [onCotReceived], on a thread that
    gets into the VM, invokes nothing, logs the failure and leaves the
    attachment of the thread as it found it; it never clears the
    [NoSuchMethodError] that [GetMethodID] raised.  On a thread that was
    attached before the call the exception is still pending when the
    callback returns; on a thread the callback attached, it goes away
    with the detach. *)
Theorem unresolved_method_leaves_exception h t w id T xml :
  g_callbacks_mutex w = None →
  registered w id T →
  enters h t w = true →
  onCotReceived_of h T = None →
  ∃ w' e, run h t (cot_callback_bridge id xml) w = Some (tt, w', e) ∧
    invocations e = [] ∧
    ¬ In (EExceptionClear t) e ∧
    In (ELog ANDROID_LOG_ERROR "Failed to find onCotReceived method") e ∧
    attached w' = attached w ∧
    (t ∈ attached w → t ∈ pending w') ∧
    (t ∉ attached w → t ∉ pending w').
Proof.
  intros Hl (ctx & Hc & [vm Hvm] & HT) Hent Hm.
  unfold enters in Hent. unfold onCotReceived_of in Hm.
  unfold run, cot_callback_bridge. run_step.
  rewrite Hl. run_step. rewrite Hc. run_step.
  rewrite decide_True by done. rewrite Hvm. run_step.
  rewrite (set_mutex_restore w t Hl).
  destruct (decide (t ∈ attached w)) as [Ht|Ht].
  - rewrite Hent. run_step. do 2 (case_decide; [done|]).
    unfold cot_callback_bridge_invoke. run_step. rewrite HT. run_step. rewrite Hm. run_step.
    eexists _, _. split; [reflexivity|]. cbn.
    split_and!; try done.
    + intros [?|[?|[]]]; discriminate.
    + tauto.
    + intros _. set_unfold. tauto.
  - apply bool_decide_eq_true in Hent.
    run_step. case_decide; [|done]. run_step. rewrite decide_False by done.
    rewrite decide_True by done. case_decide; [done|].
    unfold cot_callback_bridge_invoke. run_step. rewrite HT. run_step. rewrite Hm. run_step.
    rewrite decide_True by (set_unfold; tauto). run_step.
    rewrite ?Hvm. run_step.
    eexists _, _. split; [reflexivity|]. cbn.
    split_and!; try done.
    + intros [?|[?|[?|[?|[?|[]]]]]]; discriminate.
    + tauto.
    + apply set_eq. intros x.
      rewrite elem_of_difference, elem_of_union, elem_of_singleton.
      split; [tauto|]. intros Hx. split; [tauto|]. by intros ->.
    + intros _. set_unfold. tauto.
Qed.

Lemma unresolved_method_leaves_exception_witness :
  ∃ w' e,
    run no_method_host 1%nat (cot_callback_bridge 42 (Some "hello"%string)) registered_world
      = Some (tt, w', e) ∧
    invocations e = [] ∧
    ¬ In (EExceptionClear 1%nat) e ∧
    In (ELog ANDROID_LOG_ERROR "Failed to find onCotReceived method") e ∧
    attached w' = attached registered_world ∧
    (1%nat ∈ attached registered_world → 1%nat ∈ pending w') ∧
    (1%nat ∉ attached registered_world → 1%nat ∉ pending w').
Proof.
  apply (unresolved_method_leaves_exception no_method_host 1%nat registered_world 42 7%nat
           (Some "hello"%string)).
  - reflexivity.
  - exists (mkContext (Some 1%nat) 0%nat). split_and!; [reflexivity | by eexists | reflexivity].
  - vm_compute. reflexivity.
  - reflexivity.
Defined.

(** X12: [nativeGetStatus] never touches the registry or the attachment of
    the thread, and calls nothing but the status query and the logger.  A
    status object is returned only when the core reported success, and is
    then built from the four fields of the status, the two counters cast
    to [jlong]; when the core reports a failure the result is null and the
    state untouched; when the class or its constructor cannot be found the
    result is null and the exception of the failed lookup is left
    pending. *)
Theorem get_status_result h t w id :
  ∃ ret w' e, run h t (nativeGetStatus id) w = Some (ret, w', e) ∧
    same_registry w w' ∧ attached w' = attached w ∧
    (∀ ev, In ev e → is_log ev = true) ∧
    (ret ≠ None →
       (h_status h (to_uint64 id)).1 = 0 ∧ pending w' = pending w ∧
       ∃ cls ctor,
         let status := (h_status h (to_uint64 id)).2 in
         ret = h_new_object h cls ctor
                 [is_connected status; to_jlong (messages_sent status);
                  to_jlong (messages_received status); last_error_code status]) ∧
    ((h_status h (to_uint64 id)).1 ≠ 0 → ret = None ∧ w' = w) ∧
    ((h_status h (to_uint64 id)).1 = 0 →
     h_find_class h
       "com/engindearing/omnitak/native/OmniTAKNativeBridge$ConnectionStatusNative" = None ∨
     (∃ cls,
        h_find_class h
          "com/engindearing/omnitak/native/OmniTAKNativeBridge$ConnectionStatusNative"
          = Some cls ∧
        h_method h cls "<init>" "(IJJI)V" = None) →
     ret = None ∧ t ∈ pending w').
Proof.
  unfold run, nativeGetStatus. run_step.
  destruct (h_status h (to_uint64 id)) as [rc st]. cbn [fst snd].
  case_decide as Hrc; run_step.
  { eexists _, _, _. split; [reflexivity|]. unfold same_registry. cbn.
    split_and!; try done. intros ev [<-|[<-|[]]]; done. }
  destruct (h_find_class h _) as [cls|] eqn:Hcls; run_step.
  - destruct (h_method h cls _ _) as [ctor|] eqn:Hctor; run_step.
    + eexists _, _, _. split; [reflexivity|]. unfold same_registry. cbn.
      split_and!; try done.
      * intros ev [<-|[]]; done.
      * intros _. split_and!; [lia|done|]. by exists cls, ctor.
      * intros _ [?|(cls' & ? & ?)]; simplify_eq.
    + eexists _, _, _. split; [reflexivity|]. unfold same_registry. cbn.
      split_and!; try done.
      * intros ev [<-|[<-|[]]]; done.
      * intros _ _. split; [done|]. set_unfold. tauto.
  - eexists _, _, _. split; [reflexivity|]. unfold same_registry. cbn.
    split_and!; try done.
    + intros ev [<-|[<-|[]]]; done.
    + intros _ _. split; [done|]. set_unfold. tauto.
Qed.

(** ** Threads *)



(** X13: a critical section never blocks.  However the threads interleave,
    the thread that holds the mutex is inside a call, is not about to lock
    the mutex again, and can perform its next operation whatever the host
    does; and no thread is about to return while holding the mutex. *)
Theorem mutex_holder_can_proceed w0 w (P : pool) :
  g_callbacks_mutex w0 = None →
  rtc cstep (w0, ∅) (w, P) →
  (∀ t, g_callbacks_mutex w = Some t →
        ∃ a k, P !! t = Some (Do a k) ∧ a ≠ MutexLock ∧
               ∀ h, is_Some (exec h t a w)) ∧
  (∀ t, P !! t = Some (Ret tt) → g_callbacks_mutex w ≠ Some t).
Proof.
  intros H0 Hrtc.
  destruct (lock_inv_reachable w0 (w, P) H0 Hrtc) as [Hdisc Hin]. cbn in *.
  split.
  - intros t Ht. destruct (Hin t Ht) as [p Hp]. specialize (Hdisc t p Hp).
    rewrite bool_decide_eq_true_2 in Hdisc by done.
    destruct p as [[]|a k]; cbn in Hdisc; [done|].
    destruct Hdisc as [Hperm _].
    exists a, k. split; [done|]. split; [by intros ->|].
    intros h. destruct a; try discriminate; cbn; try done.
    by rewrite decide_True.
  - intros t Hp Ht. specialize (Hdisc t _ Hp).
    rewrite bool_decide_eq_true_2 in Hdisc by done. done.
Qed.

Ltac callback_takes_mutex :=
  eapply rtc_l;
    [apply (cstep_enter _ _ 2%nat (CallCotCallback 42 (Some "hello"%string)));
     reflexivity|];
  eapply rtc_l;
    [eapply (cstep_exec _ _ 2%nat _ _ calm_host); [apply lookup_insert_eq|reflexivity]|];
  eapply rtc_l;
    [eapply (cstep_exec _ _ 2%nat _ _ calm_host); [apply lookup_insert_eq|reflexivity]|];
  apply rtc_refl.

Lemma mutex_holder_can_proceed_witness :
  ∃ w (P : pool),
    rtc cstep (registered_world, ∅) (w, P) ∧
    g_callbacks_mutex w = Some 2%nat ∧
    (∀ t, g_callbacks_mutex w = Some t →
          ∃ a k, P !! t = Some (Do a k) ∧ a ≠ MutexLock ∧
                 ∀ h, is_Some (exec h t a w)) ∧
    (∀ t, P !! t = Some (Ret tt) → g_callbacks_mutex w ≠ Some t).
Proof.
  eexists _, _. split; [callback_takes_mutex|]. split; [reflexivity|].
  eapply (mutex_holder_can_proceed registered_world).
  - reflexivity.
  - callback_takes_mutex.
Defined.



(** ** Loading *)

(** X15: the VM a dispatch goes through is the one [JNI_OnLoad] stored.
    [JNI_OnLoad] returns [JNI_VERSION_1_6], and a registration after it
    records that VM in the entry, which makes the target registered.  A
    registration in a process where [g_jvm] is still null records the null
    pointer, and every dispatch for that id then dereferences it. *)
Theorem dispatch_uses_the_vm_of_onload h t w vm thiz cid :
  g_callbacks_mutex w = None →
  (∃ w0 e0 rc w1 e1 r,
     run h t (JNI_OnLoad (Some vm)) w = Some (JNI_VERSION_1_6, w0, e0) ∧
     run h t (nativeRegisterCallback thiz cid) w0 = Some (rc, w1, e1) ∧
     g_callbacks w1 !! to_uint64 cid = Some (mkContext (Some vm) r) ∧
     registered w1 (to_uint64 cid) thiz) ∧
  (g_jvm w = None →
   ∃ rc w1 e1,
     run h t (nativeRegisterCallback thiz cid) w = Some (rc, w1, e1) ∧
     ∀ h2 t2 xml, run h2 t2 (cot_callback_bridge (to_uint64 cid) xml) w1 = None).
Proof.
  intros Hl. split.
  - eexists _, _, _, _, _, _. split; [reflexivity|].
    rewrite register_spec by done. cbv zeta. split; [reflexivity|].
    cbn [g_callbacks globals set_callbacks set_globals set_g_jvm g_jvm next_global].
    rewrite lookup_insert_eq. split; [reflexivity|].
    eexists. cbn. rewrite lookup_insert_eq. split; [done|]. cbn.
    split; [by eexists|]. by rewrite lookup_insert_eq.
  - intros Hj. rewrite (register_spec _ _ _ _ _ Hl). cbv zeta.
    eexists _, _, _. split; [reflexivity|].
    intros h2 t2 xml. unfold run, cot_callback_bridge. run_step. rewrite Hl. run_step.
    rewrite lookup_insert_eq. run_step. rewrite decide_True by done. run_step.
    by rewrite Hj.
Qed.

Lemma dispatch_uses_the_vm_of_onload_witness :
  (∃ w0 e0 rc w1 e1 r,
     run calm_host 1%nat (JNI_OnLoad (Some 1%nat)) fresh_world
       = Some (JNI_VERSION_1_6, w0, e0) ∧
     run calm_host 1%nat (nativeRegisterCallback 7%nat 42) w0 = Some (rc, w1, e1) ∧
     g_callbacks w1 !! to_uint64 42 = Some (mkContext (Some 1%nat) r) ∧
     registered w1 (to_uint64 42) 7%nat) ∧
  (g_jvm fresh_world = None →
   ∃ rc w1 e1,
     run calm_host 1%nat (nativeRegisterCallback 7%nat 42) fresh_world
       = Some (rc, w1, e1) ∧
     ∀ h2 t2 xml, run h2 t2 (cot_callback_bridge (to_uint64 42) xml) w1 = None).
Proof.
  apply (dispatch_uses_the_vm_of_onload calm_host 1%nat fresh_world 1%nat 7%nat 42).
  reflexivity.
Defined.
